(** * PacketDebug.h: the packet logger and its heuristic field disassembler

    A shallow embedding of [class CPacketDebug]
    (Lead-Client-Source/UserInterface/PacketDebug.h) and the properties of
    its field disassembler and of its session state.

    Conventions of the embedding.
    - The buffer handed to the logger is a [list byte]; the bytes that may be
      read are exactly those of the list.  A read at any other index is
      undefined behaviour in the source and is the result [Fault] here.
    - [int], [DWORD], [WORD], [long] and [short] values are integers of [Z];
      unsigned arithmetic that can wrap ([m_nSend++], [now - m_dwLastTime])
      has its wrap-around written out.  The [int] cursor [pos] of
      [PrintContent] never exceeds [3 + 256 * 16] (lemma [cursor_bound]), so
      no [int] expression of the disassembler overflows.
    - [float] is IEEE-754 binary32, as [spec_float] values in canonical form;
      [==], [<], [<=] are [SFeqb], [SFltb], [SFleb].
    - [fprintf] appends a [Line] to the log; a line keeps the arguments of
      the call instead of the formatted text. *)

From Stdlib Require Import ZArith List Bool Lia String Sorted.
From Stdlib Require Import Init.Byte.
From Stdlib Require Import Floats.SpecFloat.
Import ListNotations.

#[local] Open Scope list_scope.
#[local] Open Scope Z_scope.

(** ** Reads that can fault *)

Module Fault.

Inductive M (A : Type) : Type :=
| Ok (a : A)
| Fault.
Arguments Ok {A} a.
Arguments Fault {A}.

Definition ret {A} (a : A) : M A := Ok a.

Definition bind {A B} (m : M A) (k : A -> M B) : M B :=
  match m with
  | Ok a => k a
  | Fault => Fault
  end.

End Fault.
Import Fault.

Declare Scope fault_scope.
Delimit Scope fault_scope with fault.
Notation "x <- m ;; k" := (bind m (fun x => k))
  (at level 61, m at next level, right associativity) : fault_scope.
Notation "' pat <- m ;; k" := (bind m (fun x => match x with pat => k end))
  (at level 61, pat pattern, m at next level, right associativity) : fault_scope.
#[local] Open Scope fault_scope.

(** ** Configuration *)

Definition PKT_DBG_MIN_STR_LEN : Z := 3.
Definition PKT_DBG_MAX_FIELDS : nat := 16.
Definition PKT_DBG_LOG_FILE : string := "debug_packet.log".

(** ** Bytes and typed reads *)

Definition BYTE_val (b : byte) : Z := Z.of_N (Byte.to_N b).

(** [data[i]] *)
Definition rd (data : list byte) (i : Z) : M byte :=
  if i <? 0 then Fault
  else match nth_error data (Z.to_nat i) with
       | Some b => Ok b
       | None => Fault
       end.

(** [*(WORD* )(data + i)]: two bytes, little-endian (x86). *)
Definition rd_WORD (data : list byte) (i : Z) : M Z :=
  b0 <- rd data i ;;
  b1 <- rd data (i + 1) ;;
  ret (BYTE_val b0 + 256 * BYTE_val b1).

(** [*(DWORD* )(data + i)]: four bytes, little-endian. *)
Definition rd_DWORD (data : list byte) (i : Z) : M Z :=
  b0 <- rd data i ;;
  b1 <- rd data (i + 1) ;;
  b2 <- rd data (i + 2) ;;
  b3 <- rd data (i + 3) ;;
  ret (BYTE_val b0 + 256 * BYTE_val b1 + 65536 * BYTE_val b2 + 16777216 * BYTE_val b3).

(** The same 16 bits read as [short], the same 32 bits read as [long]
    (32 bits wide on the target), two's complement. *)
Definition as_short (u : Z) : Z := if u <? 32768 then u else u - 65536.
Definition as_long (u : Z) : Z := if u <? 2147483648 then u else u - 4294967296.

(** ** binary32 *)

Module IEEE32.

(** The [float] whose object representation is the 32-bit pattern [x]:
    bit 31 the sign, bits 30..23 the biased exponent, bits 22..0 the
    fraction. *)
Definition of_bits (x : Z) : spec_float :=
  let s := 2147483648 <=? x in
  let e := (x / 8388608) mod 256 in
  let m := x mod 8388608 in
  if e =? 0 then
    match m with
    | Zpos p => S754_finite s p (-149)
    | _ => S754_zero s
    end
  else if e =? 255 then
    (if m =? 0 then S754_infinity s else S754_nan)
  else
    match m + 8388608 with
    | Zpos p => S754_finite s p (e - 150)
    | _ => S754_nan
    end.

(** The literals of [IsReasonableFloat]. *)
Definition lit_0 : spec_float := S754_zero false.                       (* 0.0f *)
Definition lit_1e10 : spec_float := S754_finite false 9765625 10.       (* 1e10f *)
Definition lit_0_0001 : spec_float := S754_finite false 13743895 (-37). (* 0.0001f *)
Definition lit_100000 : spec_float := S754_finite false 12800000 (-7).  (* 100000.0f *)

(** [|val| * 2^149] as an exact integer, for a finite [val]. *)
Definition magnitude149 (val : spec_float) : option Z :=
  match val with
  | S754_zero _ => Some 0
  | S754_finite _ m e => Some (Zpos m * 2 ^ (e + 149))
  | _ => None
  end.

End IEEE32.

(** ** The log *)

Inductive FieldKind : Type :=
| KString (n : Z) (s : string)          (* char[%zu]: "%s", null-terminated candidate *)
| KFixedString (n : Z) (s : string)     (* char[%d]: "%s", fixed-size candidate *)
| KFloat (fval : spec_float)            (* float: %.4f *)
| KLong (sval uval : Z)                 (* long: %ld (0x%08X) *)
| KDWORD (uval : Z)                     (* DWORD: %u (0x%08X) *)
| KShort (sval uval : Z)                (* short: %d (0x%04X) *)
| KWORD (uval : Z)                      (* WORD: %u (0x%04X) *)
| KBool (val : Z)                       (* BYTE/bool: %u *)
| KByte (val : Z).                      (* BYTE: %u (0x%02X) *)

(** One committed field: the offset printed in brackets, what was printed
    after it, and the number of bytes by which [pos] advanced. *)
Record FieldRecord : Type := mkField {
  f_off : Z;
  f_kind : FieldKind;
  f_width : Z
}.

Record SYSTEMTIME : Type := mkTime {
  wYear : Z; wMonth : Z; wDay : Z;
  wHour : Z; wMinute : Z; wSecond : Z; wMilliseconds : Z
}.

Inductive Direction : Type := SEND | RECV.

Inductive Line : Type :=
| LRule                                 (* "=====...=====\n" *)
| LRuleEnd                              (* "=====...=====\n\n" *)
| LSessionTitle (st : SYSTEMTIME)       (* "  PACKET DEBUG SESSION - ...\n" *)
| LLogFile (path : string)              (* "  Log file: %s\n" *)
| LColumns                              (* " DIR  |     TIME      | ...\n" *)
| LDashes                               (* "------+------...\n" *)
| LSessionEnd (nSend nRecv : Z)         (* " SESSION END - SEND: %u packets | RECV: %u packets\n" *)
| LPacket (dir : Direction) (n : Z) (st : SYSTEMTIME) (dt : Z) (header : Z) (size : Z)
                                        (* " %s #%u | %02d:%02d:%02d.%03d | %6u | %3u (0x%02X)    | %5d |" *)
| LEmpty                                (* " (empty)\n" *)
| LHeaderOnly                           (* " (header only)\n" *)
| LNewline                              (* "\n" *)
| LField (r : FieldRecord)
| LMore (n : Z).                        (* "       ... +%d more bytes\n" *)

(** ** The classifiers *)

Definition IsPrintable (c : byte) : bool := (32 <=? BYTE_val c) && (BYTE_val c <? 127).

Definition IsReasonableFloat (val : spec_float) : bool :=
  if negb (SFeqb val val) then false
  else if SFltb IEEE32.lit_1e10 val || SFltb val (SFopp IEEE32.lit_1e10) then false
  else if SFeqb val IEEE32.lit_0 then false
  else
    let absVal := if SFltb val IEEE32.lit_0 then SFopp val else val in
    SFleb IEEE32.lit_0_0001 absVal && SFleb absVal IEEE32.lit_100000.

Definition IsReasonableDWORD (val : Z) : bool :=
  if (val =? 0) || (val =? 0xFFFFFFFF) then false
  else if 0xF0000000 <? val then false
  else true.

(** The counting loop of [DetectFixedString] for one candidate size:
    [n] iterations remain, [i] is the loop index, [base] the offset of the
    [data] argument in the buffer.  Returns [(valid, printable, nulls)]. *)
Fixpoint count_region (n : nat) (data : list byte) (base i printable nulls : Z)
  : M (bool * Z * Z) :=
  match n with
  | O => ret (true, printable, nulls)
  | S n' =>
      c <- rd data (base + i) ;;
      if IsPrintable c then count_region n' data base (i + 1) (printable + 1) nulls
      else if BYTE_val c =? 0 then count_region n' data base (i + 1) printable (nulls + 1)
      else ret (false, printable, nulls)
  end.

Definition sizes : list Z := [13; 16; 17; 24; 25; 31; 32; 33; 48; 64; 65; 128; 256].

Fixpoint DetectFixedString_from (szs : list Z) (data : list byte) (base maxLen : Z) : M Z :=
  match szs with
  | [] => ret 0
  | sz :: rest =>
      if maxLen <? sz then ret 0
      else
        '(valid, printable, nulls) <- count_region (Z.to_nat sz) data base 0 0 0 ;;
        if valid && (PKT_DBG_MIN_STR_LEN <=? printable) && (0 <? nulls)
           && (printable + nulls =? sz)
        then ret sz
        else DetectFixedString_from rest data base maxLen
  end.

(** [DetectFixedString(data + base, maxLen)] *)
Definition DetectFixedString (data : list byte) (base maxLen : Z) : M Z :=
  DetectFixedString_from sizes data base maxLen.

(** ** One iteration of the classification loop

    Each candidate returns [Some (record, pos')] when it commits (the source
    prints the line, advances [pos] and [continue]s) and [None] when it falls
    through with [pos] unchanged. *)

Definition Candidate : Type := M (option (FieldRecord * Z)).

Definition commit (off : Z) (k : FieldKind) (pos' : Z) : Candidate :=
  ret (Some (mkField off k (pos' - off), pos')).

Definition reject : Candidate := ret None.

(** The [while] loop that collects the printable run.  [room] is
    [64 - s.length()]; the test on it comes last, as in the source. *)
Fixpoint str_run (room : nat) (data : list byte) (size pos : Z) (s : list byte)
  : M (Z * list byte) :=
  if pos <? size then
    c <- rd data pos ;;
    if negb (BYTE_val c =? 0) && IsPrintable c then
      match room with
      | S room' => str_run room' data size (pos + 1) (s ++ [c])
      | O => ret (pos, s)
      end
    else ret (pos, s)
  else ret (pos, s).

(** [pos >= size || data[pos] == 0] *)
Definition at_end_or_null (data : list byte) (size pos : Z) : M bool :=
  if size <=? pos then ret true
  else c <- rd data pos ;; ret (BYTE_val c =? 0).

(** [pos < size && data[pos] == 0] *)
Definition at_null (data : list byte) (size pos : Z) : M bool :=
  if pos <? size then c <- rd data pos ;; ret (BYTE_val c =? 0)
  else ret false.

Definition try_string (data : list byte) (size pos : Z) : Candidate :=
  c <- rd data pos ;;
  if IsPrintable c then
    let strStart := pos in
    '(pos, s) <- str_run 64 data size pos [] ;;
    let len := Z.of_nat (List.length s) in
    ok <- (if PKT_DBG_MIN_STR_LEN <=? len then at_end_or_null data size pos
           else ret false) ;;
    if ok then
      adv <- at_null data size pos ;;
      commit strStart (KString (len + 1) (string_of_list_byte s))
             (if adv then pos + 1 else pos)
    else reject
  else reject.

(** [for (i = 0; i < fixedStrLen && data[pos + i] != 0; i++) s += data[pos + i]],
    with [n] the iterations that remain. *)
Fixpoint fixed_prefix (n : nat) (data : list byte) (pos i : Z) (s : list byte)
  : M (list byte) :=
  match n with
  | O => ret s
  | S n' =>
      c <- rd data (pos + i) ;;
      if BYTE_val c =? 0 then ret s
      else fixed_prefix n' data pos (i + 1) (s ++ [c])
  end.

Definition try_fixed (data : list byte) (size pos : Z) : Candidate :=
  fixedStrLen <- DetectFixedString data pos (size - pos) ;;
  if 0 <? fixedStrLen then
    s <- fixed_prefix (Z.to_nat fixedStrLen) data pos 0 [] ;;
    commit pos (KFixedString fixedStrLen (string_of_list_byte s)) (pos + fixedStrLen)
  else reject.

Definition try_float (data : list byte) (size pos : Z) : Candidate :=
  if pos + 4 <=? size then
    bits <- rd_DWORD data pos ;;
    let fval := IEEE32.of_bits bits in
    if IsReasonableFloat fval then commit pos (KFloat fval) (pos + 4)
    else reject
  else reject.

Definition try_int32 (data : list byte) (size pos : Z) : Candidate :=
  if pos + 4 <=? size then
    uval <- rd_DWORD data pos ;;
    let sval := as_long uval in
    if (sval <? 0) && (-100000000 <? sval) then commit pos (KLong sval uval) (pos + 4)
    else if IsReasonableDWORD uval then commit pos (KDWORD uval) (pos + 4)
    else reject
  else reject.

Definition try_int16 (data : list byte) (size pos : Z) : Candidate :=
  if pos + 2 <=? size then
    uval <- rd_WORD data pos ;;
    let sval := as_short uval in
    if (sval <? 0) && (-32000 <? sval) then commit pos (KShort sval uval) (pos + 2)
    else if (0 <? uval) && (uval <? 0xFFF0) then commit pos (KWORD uval) (pos + 2)
    else reject
  else reject.

Definition byte_fallback (data : list byte) (pos : Z) : M (FieldRecord * Z) :=
  c <- rd data pos ;;
  let val := BYTE_val c in
  let k := if (val =? 0) || (val =? 1) then KBool val else KByte val in
  ret (mkField pos k (pos + 1 - pos), pos + 1).

(** [a] if it commits, otherwise whatever follows. *)
Definition or_else (a : Candidate) (rest : M (FieldRecord * Z)) : M (FieldRecord * Z) :=
  r <- a ;;
  match r with
  | Some x => ret x
  | None => rest
  end.

(** The body of the [while] loop of [PrintContent]. *)
Definition classify (data : list byte) (size pos : Z) : M (FieldRecord * Z) :=
  or_else (try_string data size pos)
  (or_else (try_fixed data size pos)
  (or_else (try_float data size pos)
  (or_else (try_int32 data size pos)
  (or_else (try_int16 data size pos)
  (byte_fallback data pos))))).

(** [while (pos < size && fieldCount < PKT_DBG_MAX_FIELDS)]; [left] is
    [PKT_DBG_MAX_FIELDS - fieldCount] (every path through the body
    increments [fieldCount] once).  Returns the records in order and the
    value of [pos] when the loop exits. *)
Fixpoint scan_loop (left : nat) (data : list byte) (size pos : Z)
  : M (list FieldRecord * Z) :=
  if pos <? size then
    match left with
    | O => ret ([], pos)
    | S left' =>
        '(r, pos1) <- classify data size pos ;;
        '(rs, pos2) <- scan_loop left' data size pos1 ;;
        ret (r :: rs, pos2)
    end
  else ret ([], pos).

(** [pos] after the dynamic-packet check (header + WORD size). *)
Definition scan_start (data : list byte) (size : Z) : M Z :=
  dyn <- (if 3 <=? size then w <- rd_WORD data 1 ;; ret (w =? size)
          else ret false) ;;
  ret (if dyn then 3 else 1).

Definition PrintContent (data : list byte) (size : Z) : M (list Line) :=
  if size <=? 1 then ret [LEmpty]
  else
    pos <- scan_start data size ;;
    if size <=? pos then ret [LHeaderOnly]
    else
      '(rs, pos') <- scan_loop PKT_DBG_MAX_FIELDS data size pos ;;
      ret (LNewline :: map LField rs
             ++ (if pos' <? size then [LMore (size - pos')] else [])).

(** ** The session *)

Definition DWORD_wrap (x : Z) : Z := x mod 4294967296.

(** The members of [CPacketDebug].  [m_pFile] records whether the [FILE*]
    is non-null; what was written through it is the [log] of the [World]. *)
Record CPacketDebug : Type := mkSession {
  m_bInit : bool;
  m_pFile : bool;
  m_dwLastTime : Z;
  m_nSend : Z;
  m_nRecv : Z;
  m_szLogPath : string
}.

(** The singleton together with the contents of the log file, which is
    opened in append mode and so outlives [fclose]. *)
Record World : Type := mkWorld {
  inst : CPacketDebug;
  log : list Line
}.

(** What a call observes of its environment: whether [_fsopen] succeeds,
    [GetTickCount()] and [GetLocalTime()]. *)
Record Env : Type := mkEnv {
  fsopen_ok : bool;
  tick : Z;
  localtime : SYSTEMTIME
}.

(** The private constructor. *)
Definition CPacketDebug_new : CPacketDebug :=
  mkSession false false 0 0 0 EmptyString.

Definition fprintf (w : World) (ls : list Line) : World :=
  mkWorld (inst w) (log w ++ ls).

Definition Initialize (env : Env) (w : World) : World :=
  let o := inst w in
  if m_bInit o then w
  else
    let o1 := mkSession (m_bInit o) (m_pFile o) (m_dwLastTime o)
                        (m_nSend o) (m_nRecv o) PKT_DBG_LOG_FILE in
    if negb (fsopen_ok env) then
      mkWorld (mkSession (m_bInit o1) false (m_dwLastTime o1)
                         (m_nSend o1) (m_nRecv o1) (m_szLogPath o1)) (log w)
    else
      let o2 := mkSession true true (tick env)
                          (m_nSend o1) (m_nRecv o1) (m_szLogPath o1) in
      fprintf (mkWorld o2 (log w))
              [LNewline; LRule; LSessionTitle (localtime env);
               LLogFile (m_szLogPath o2); LRule; LColumns; LDashes].

Definition Shutdown (w : World) : World :=
  let o := inst w in
  if negb (m_bInit o) then w
  else
    let w1 := fprintf w [LRule; LSessionEnd (m_nSend o) (m_nRecv o); LRuleEnd] in
    mkWorld (mkSession false false (m_dwLastTime o)
                       (m_nSend o) (m_nRecv o) (m_szLogPath o)) (log w1).

(** [data] is [None] for a null pointer. *)
Definition Log (env : Env) (dir : Direction) (data : option (list byte)) (size : Z)
           (w : World) : M World :=
  let o := inst w in
  match data with
  | None => ret w
  | Some p =>
      if (size <? 1) || negb (m_pFile o) then ret w
      else
        header <- rd p 0 ;;
        let now := tick env in
        let dt := DWORD_wrap (now - m_dwLastTime o) in
        let o1 := mkSession (m_bInit o) (m_pFile o) now
                            (m_nSend o) (m_nRecv o) (m_szLogPath o) in
        let w1 := fprintf (mkWorld o1 (log w))
                    [LPacket dir (DWORD_wrap (m_nSend o1 + m_nRecv o1))
                             (localtime env) dt (BYTE_val header) size] in
        content <- PrintContent p size ;;
        ret (fprintf w1 content)
  end.

Definition LogSend (env : Env) (data : option (list byte)) (size : Z) (w : World)
  : M World :=
  let o := inst w in
  if m_bInit o then
    let o1 := mkSession (m_bInit o) (m_pFile o) (m_dwLastTime o)
                        (DWORD_wrap (m_nSend o + 1)) (m_nRecv o) (m_szLogPath o) in
    Log env SEND data size (mkWorld o1 (log w))
  else ret w.

Definition LogRecv (env : Env) (data : option (list byte)) (size : Z) (w : World)
  : M World :=
  let o := inst w in
  if m_bInit o then
    let o1 := mkSession (m_bInit o) (m_pFile o) (m_dwLastTime o)
                        (m_nSend o) (DWORD_wrap (m_nRecv o + 1)) (m_szLogPath o) in
    Log env RECV data size (mkWorld o1 (log w))
  else ret w.

(** A run of the public interface from the state the constructor leaves. *)
Inductive Call : Type :=
| CInitialize (env : Env)
| CShutdown
| CLogSend (env : Env) (data : option (list byte)) (size : Z)
| CLogRecv (env : Env) (data : option (list byte)) (size : Z).

Definition call (c : Call) (w : World) : M World :=
  match c with
  | CInitialize env => ret (Initialize env w)
  | CShutdown => ret (Shutdown w)
  | CLogSend env data size => LogSend env data size w
  | CLogRecv env data size => LogRecv env data size w
  end.

Fixpoint run (cs : list Call) (w : World) : M World :=
  match cs with
  | [] => ret w
  | c :: cs' => w' <- call c w ;; run cs' w'
  end.

Definition process_start : World := mkWorld CPacketDebug_new [].

(** ** Vocabulary of the properties *)

(** A committed record starts at [pos], is as wide as the advance of
    [pos], which is at most 256, and ends inside the buffer. *)
Definition advances (size pos : Z) (x : FieldRecord * Z) : Prop :=
  f_off (fst x) = pos /\ f_width (fst x) = snd x - pos
  /\ pos < snd x <= size /\ snd x <= pos + 256.

Definition candidate_ok (size pos : Z) (c : Candidate) : Prop :=
  exists o, c = Ok o /\ forall x, o = Some x -> advances size pos x.

(** The counting loop of [DetectFixedString] as a left-to-right pass over
    the bytes of the probed region. *)
Fixpoint count_list (l : list byte) (printable nulls : Z) : bool * Z * Z :=
  match l with
  | [] => (true, printable, nulls)
  | c :: l' =>
      if IsPrintable c then count_list l' (printable + 1) nulls
      else if BYTE_val c =? 0 then count_list l' printable (nulls + 1)
      else (false, printable, nulls)
  end.

(** The records [rs] tile [[from, to)]: each starts where the previous one
    ends and none is empty. *)
Fixpoint tiles (from : Z) (rs : list FieldRecord) (to : Z) : Prop :=
  match rs with
  | [] => from = to
  | r :: rs' => f_off r = from /\ 0 < f_width r /\ tiles (f_off r + f_width r) rs' to
  end.

(** Each record starts at the end of the one before it. *)
Fixpoint contiguous (from : Z) (rs : list FieldRecord) : Prop :=
  match rs with
  | [] => True
  | r :: rs' => f_off r = from /\ contiguous (f_off r + f_width r) rs'
  end.

Definition offsets_increasing (rs : list FieldRecord) : Prop :=
  StronglySorted (fun a b => f_off a < f_off b) rs.

Definition within (lo hi : Z) (r : FieldRecord) : Prop :=
  lo <= f_off r /\ 0 < f_width r /\ f_off r + f_width r <= hi.

(** The field records and the remainder counts among the lines printed. *)
Definition fields_of (out : list Line) : list FieldRecord :=
  flat_map (fun l => match l with LField r => [r] | _ => [] end) out.

Definition more_of (out : list Line) : list Z :=
  flat_map (fun l => match l with LMore n => [n] | _ => [] end) out.

(** The candidates tried before the float candidate, and before the 16-bit
    candidate, all fall through at [pos]. *)
Definition reaches_float (data : list byte) (size pos : Z) : Prop :=
  try_string data size pos = Ok None /\ try_fixed data size pos = Ok None.

Definition reaches_int16 (data : list byte) (size pos : Z) : Prop :=
  reaches_float data size pos
  /\ try_float data size pos = Ok None /\ try_int32 data size pos = Ok None.

(** The calls to [LogSend] (to [LogRecv]) of a run that were made while the
    logger was initialized, counted over the whole run, whatever the number
    of sessions in it.  [active] is [m_bInit] before the run. *)
Fixpoint sends_while_active (active : bool) (cs : list Call) : Z :=
  match cs with
  | [] => 0
  | CInitialize env :: cs' => sends_while_active (active || fsopen_ok env) cs'
  | CShutdown :: cs' => sends_while_active false cs'
  | CLogSend _ _ _ :: cs' =>
      (if active then 1 else 0) + sends_while_active active cs'
  | CLogRecv _ _ _ :: cs' => sends_while_active active cs'
  end.

Fixpoint recvs_while_active (active : bool) (cs : list Call) : Z :=
  match cs with
  | [] => 0
  | CInitialize env :: cs' => recvs_while_active (active || fsopen_ok env) cs'
  | CShutdown :: cs' => recvs_while_active false cs'
  | CLogSend _ _ _ :: cs' => recvs_while_active active cs'
  | CLogRecv _ _ _ :: cs' =>
      (if active then 1 else 0) + recvs_while_active active cs'
  end.

Definition counters_are_DWORDs (w : World) : Prop :=
  0 <= m_nSend (inst w) < 4294967296 /\ 0 <= m_nRecv (inst w) < 4294967296.

(** A binary32 value in canonical form: a 24-bit significand, normal above
    the least exponent. *)
Definition canonical32 (m : positive) (e : Z) : Prop :=
  Zpos m < 16777216 /\ -149 <= e /\ (-149 < e -> 8388608 <= Zpos m).

(** The acceptance band in exact arithmetic, all magnitudes scaled by
    [2^149]: [val] is finite, [|val| <= 1e10], [val <> 0] and
    [0.0001f <= |val| <= 100000], where [0.0001f = 13743895 * 2^-37] is the
    binary32 value of the literal. *)
Definition plausible_float (val : spec_float) : Prop :=
  exists g,
    IEEE32.magnitude149 val = Some g
    /\ g <= 10000000000 * 2 ^ 149
    /\ g <> 0
    /\ 13743895 * 2 ^ 112 <= g <= 100000 * 2 ^ 149.

(** The [n] bytes of the buffer from offset [pos]. *)
Definition region (data : list byte) (pos : Z) (n : nat) : list byte :=
  firstn n (skipn (Z.to_nat pos) data).

Definition printable_or_null (c : byte) : bool :=
  IsPrintable c || (BYTE_val c =? 0).

Definition printable_count (l : list byte) : Z :=
  Z.of_nat (List.length (filter IsPrintable l)).

Definition null_count (l : list byte) : Z :=
  Z.of_nat (List.length (filter (fun c => BYTE_val c =? 0) l)).

(** A printable, null-padded region: every byte printable or null, at
    least [PKT_DBG_MIN_STR_LEN] printable bytes, at least one null. *)
Definition padded_string (l : list byte) : bool :=
  forallb printable_or_null l
  && (PKT_DBG_MIN_STR_LEN <=? printable_count l)
  && (0 <? null_count l).

(** The number of printable bytes a region starts with, and its bytes
    before the first null. *)
Fixpoint leading_printable (l : list byte) : nat :=
  match l with
  | c :: l' => if IsPrintable c then S (leading_printable l') else O
  | [] => O
  end.

Fixpoint before_null (l : list byte) : list byte :=
  match l with
  | c :: l' => if BYTE_val c =? 0 then [] else c :: before_null l'
  | [] => []
  end.

(** The bytes consumed by a list of records, and the sum of a list. *)
Definition widths_sum (rs : list FieldRecord) : Z :=
  fold_right (fun r acc => f_width r + acc) 0 rs.

Definition Z_sum (l : list Z) : Z := fold_right Z.add 0 l.

(** What a printed record says about the bytes at its offset: its kind, the
    values printed and its width are those of the bytes found there. *)
Definition field_shape (data : list byte) (size : Z) (r : FieldRecord) : Prop :=
  let pos := f_off r in
  match f_kind r with
  | KString n s =>
      exists run : nat,
        n = Z.of_nat run + 1 /\ (3 <= run <= 64)%nat
        /\ s = string_of_list_byte (region data pos run)
        /\ forallb IsPrintable (region data pos run) = true
        /\ ((f_width r = n /\ rd data (pos + Z.of_nat run) = Ok x00)
            \/ (f_width r = n - 1 /\ pos + f_width r = size))
  | KFixedString n s =>
      In n sizes /\ f_width r = n
      /\ padded_string (region data pos (Z.to_nat n)) = true
      /\ s = string_of_list_byte (before_null (region data pos (Z.to_nat n)))
  | KFloat fval =>
      f_width r = 4
      /\ exists u, rd_DWORD data pos = Ok u /\ fval = IEEE32.of_bits u
                   /\ IsReasonableFloat fval = true
  | KLong sval uval =>
      f_width r = 4 /\ rd_DWORD data pos = Ok uval
      /\ sval = uval - 4294967296 /\ -100000000 < sval < 0
  | KDWORD uval =>
      f_width r = 4 /\ rd_DWORD data pos = Ok uval /\ 1 <= uval <= 0xF0000000
  | KShort sval uval =>
      f_width r = 2 /\ rd_WORD data pos = Ok uval
      /\ sval = uval - 65536 /\ -32000 < sval < 0
  | KWORD uval =>
      f_width r = 2 /\ rd_WORD data pos = Ok uval /\ 1 <= uval <= 33536
  | KBool val =>
      f_width r = 1 /\ (val = 0 \/ val = 1)
      /\ exists c, rd data pos = Ok c /\ BYTE_val c = val
  | KByte val =>
      f_width r = 1 /\ 2 <= val <= 255
      /\ exists c, rd data pos = Ok c /\ BYTE_val c = val
  end.

(** * Properties *)

(** ** Reads *)

Lemma BYTE_val_range (b : byte) : 0 <= BYTE_val b < 256.
Proof.
  unfold BYTE_val. pose proof (Byte.to_N_bounded b). lia.
Qed.

Lemma rd_in (data : list byte) (i : Z) :
  0 <= i < Z.of_nat (List.length data) -> exists b, rd data i = Ok b.
Proof.
  intros Hi. unfold rd.
  destruct (i <? 0) eqn:E; [lia|].
  destruct (nth_error data (Z.to_nat i)) eqn:N; eauto.
  apply nth_error_None in N. lia.
Qed.

Lemma rd_Ok_in (data : list byte) (i : Z) (b : byte) :
  rd data i = Ok b -> 0 <= i < Z.of_nat (List.length data).
Proof.
  unfold rd. destruct (i <? 0) eqn:E; [discriminate|].
  destruct (nth_error data (Z.to_nat i)) eqn:N; [|discriminate].
  intros _. assert (nth_error data (Z.to_nat i) <> None) as H by congruence.
  apply nth_error_Some in H. lia.
Qed.

Ltac splits := repeat match goal with |- _ /\ _ => split end.

(** Resolve the next read of the goal, given that its index is in range. *)
Ltac next_rd c :=
  match goal with
  | |- context [rd ?d ?i] =>
      let H := fresh "Hrd" in
      destruct (rd_in d i) as [c H]; [lia | rewrite H; cbn [bind ret]]
  end.

Lemma rd_WORD_in (data : list byte) (i : Z) :
  0 <= i -> i + 2 <= Z.of_nat (List.length data) ->
  exists u, rd_WORD data i = Ok u /\ 0 <= u < 65536.
Proof.
  intros H0 H1. unfold rd_WORD.
  next_rd b0. next_rd b1.
  pose proof (BYTE_val_range b0). pose proof (BYTE_val_range b1).
  eexists; split; [reflexivity | lia].
Qed.

Lemma rd_DWORD_in (data : list byte) (i : Z) :
  0 <= i -> i + 4 <= Z.of_nat (List.length data) ->
  exists u, rd_DWORD data i = Ok u /\ 0 <= u < 4294967296.
Proof.
  intros H0 H1. unfold rd_DWORD.
  next_rd b0. next_rd b1. next_rd b2. next_rd b3.
  pose proof (BYTE_val_range b0). pose proof (BYTE_val_range b1).
  pose proof (BYTE_val_range b2). pose proof (BYTE_val_range b3).
  eexists; split; [reflexivity | lia].
Qed.

(** ** Every candidate stays inside the buffer and advances *)

Section InBounds.

Variable data : list byte.
Variable size : Z.
Hypothesis size_le : size <= Z.of_nat (List.length data).

#[local] Abbreviation advances := (advances size).
#[local] Abbreviation candidate_ok := (candidate_ok size).

Lemma commit_ok (pos pos' : Z) (k : FieldKind) :
  pos < pos' <= size /\ pos' <= pos + 256 -> candidate_ok pos (commit pos k pos').
Proof.
  intros H. eexists; split; [reflexivity|].
  intros x [= <-]. unfold advances; cbn. lia.
Qed.

Lemma reject_ok (pos : Z) : candidate_ok pos reject.
Proof. eexists; split; [reflexivity | discriminate]. Qed.

Lemma str_run_spec (room : nat) : forall (pos : Z) (s : list byte),
  0 <= pos ->
  exists p s',
    str_run room data size pos s = Ok (p, s')
    /\ pos <= p /\ (pos <= size -> p <= size) /\ (size <= pos -> p = pos)
    /\ p - pos <= Z.of_nat room
    /\ Z.of_nat (List.length s') = Z.of_nat (List.length s) + (p - pos)
    /\ (forall i, pos <= i < p ->
          exists c, rd data i = Ok c /\ IsPrintable c = true)
    /\ (p < size -> p - pos < Z.of_nat room ->
          exists c, rd data p = Ok c /\
                    (BYTE_val c = 0 \/ IsPrintable c = false)).
Proof.
  induction room as [|room IH]; intros pos s Hpos.
  - cbn. destruct (pos <? size) eqn:E.
    + next_rd c.
      destruct (negb (BYTE_val c =? 0) && IsPrintable c);
        exists pos, s; repeat split; try lia; intros; lia.
    + exists pos, s. repeat split; try lia; intros; lia.
  - cbn. destruct (pos <? size) eqn:E.
    + next_rd c.
      destruct (negb (BYTE_val c =? 0) && IsPrintable c) eqn:T.
      * destruct (IH (pos + 1) (s ++ [c])) as (p & s' & R & A & B & B' & C & D & F & G);
          [lia|].
        exists p, s'. rewrite R. rewrite length_app in D. cbn in D.
        apply andb_prop in T. destruct T as [_ T].
        repeat split; try lia.
        -- intros i Hi. destruct (Z.eq_dec i pos) as [->|]; [eauto|].
           apply F. lia.
        -- intros. apply G; lia.
      * exists pos, s. repeat split; try lia; try (intros; lia).
        intros _ _. exists c. split; [assumption|].
        destruct (BYTE_val c =? 0) eqn:Z0; [left; lia|].
        right. cbn in T. assumption.
    + exists pos, s. repeat split; try lia; intros; lia.
Qed.

Lemma try_string_ok (pos : Z) :
  0 <= pos < size -> candidate_ok pos (try_string data size pos).
Proof.
  intros Hpos. unfold try_string.
  next_rd c. destruct (IsPrintable c); [|apply reject_ok].
  destruct (str_run_spec 64 pos [] ltac:(lia))
    as (p & s & R & A & B & _ & C & D & _ & _).
  rewrite R. cbn [bind ret]. cbn in D.
  destruct (PKT_DBG_MIN_STR_LEN <=? Z.of_nat (List.length s)) eqn:L;
    [|apply reject_ok].
  unfold PKT_DBG_MIN_STR_LEN in L.
  unfold at_end_or_null, at_null.
  destruct (size <=? p) eqn:E1; cbn [bind ret].
  - destruct (p <? size) eqn:E2; [lia|]. cbn [bind ret].
    apply commit_ok. lia.
  - next_rd c1. destruct (BYTE_val c1 =? 0); [|apply reject_ok].
    destruct (p <? size) eqn:E2; [|lia].
    cbn [bind ret]. apply commit_ok; lia.
Qed.

Lemma skipn_cons_nth (k : nat) (c : byte) :
  nth_error data k = Some c -> skipn k data = c :: skipn (S k) data.
Proof.
  clear size_le. revert k. induction data as [|a l IH]; intros [|k] H; cbn in *;
    try discriminate.
  - congruence.
  - apply IH in H. rewrite H. reflexivity.
Qed.

Lemma rd_skipn (i : Z) (c : byte) :
  rd data i = Ok c ->
  skipn (Z.to_nat i) data = c :: skipn (Z.to_nat (i + 1)) data.
Proof.
  intros H. pose proof (rd_Ok_in _ _ _ H) as Hi. unfold rd in H.
  destruct (i <? 0); [discriminate|].
  destruct (nth_error data (Z.to_nat i)) eqn:N; [|discriminate].
  injection H as ->. rewrite (skipn_cons_nth _ _ N).
  replace (Z.to_nat (i + 1)) with (S (Z.to_nat i)) by lia. reflexivity.
Qed.

Lemma count_region_list (base : Z) (n : nat) : forall i printable nulls,
  0 <= base + i -> base + i + Z.of_nat n <= Z.of_nat (List.length data) ->
  count_region n data base i printable nulls
  = Ok (count_list (firstn n (skipn (Z.to_nat (base + i)) data)) printable nulls).
Proof.
  induction n as [|n IH]; intros i pr nu H0 H1; [reflexivity|].
  cbn [count_region]. next_rd c.
  rewrite (rd_skipn _ _ Hrd). cbn [firstn count_list].
  replace (base + i + 1) with (base + (i + 1)) by lia.
  destruct (IsPrintable c); [apply IH; lia|].
  destruct (BYTE_val c =? 0); [apply IH; lia|reflexivity].
Qed.

Lemma DetectFixedString_from_ok (base maxLen : Z) (szs : list Z) :
  0 <= base -> base + maxLen <= Z.of_nat (List.length data) ->
  Forall (fun sz => 0 < sz) szs ->
  exists r, DetectFixedString_from szs data base maxLen = Ok r
            /\ (r = 0 \/ (In r szs /\ r <= maxLen)).
Proof.
  intros H0 H1. induction 1 as [|sz rest Hsz _ IH]; cbn.
  - exists 0. auto.
  - destruct (maxLen <? sz) eqn:E; [exists 0; auto|].
    rewrite count_region_list by lia.
    cbn [bind]. destruct (count_list _ 0 0) as [[valid pr] nu].
    destruct (valid && (PKT_DBG_MIN_STR_LEN <=? pr) && (0 <? nu) && (pr + nu =? sz)).
    + exists sz. split; [reflexivity|]. right. split; [now left | lia].
    + destruct IH as (r & -> & [->|[Hin Hle]]); eexists; split;
        try reflexivity; auto.
Qed.

Lemma sizes_positive : Forall (fun sz => 0 < sz) sizes.
Proof. unfold sizes. repeat constructor. Qed.

Lemma sizes_le_256 (sz : Z) : In sz sizes -> sz <= 256.
Proof. unfold sizes. cbn. intuition lia. Qed.

Lemma fixed_prefix_ok (pos : Z) (n : nat) : forall i s,
  0 <= pos + i -> pos + i + Z.of_nat n <= Z.of_nat (List.length data) ->
  exists s', fixed_prefix n data pos i s = Ok s'.
Proof.
  induction n as [|n IH]; intros i s H0 H1; cbn; [eauto|].
  next_rd c. destruct (BYTE_val c =? 0); [eauto|].
  apply IH; lia.
Qed.

Lemma try_fixed_ok (pos : Z) :
  0 <= pos < size -> candidate_ok pos (try_fixed data size pos).
Proof.
  intros Hpos. unfold try_fixed, DetectFixedString.
  destruct (DetectFixedString_from_ok pos (size - pos) sizes)
    as (r & -> & Hr); [lia | lia | apply sizes_positive |].
  cbn [bind]. destruct (0 <? r) eqn:E; [|apply reject_ok].
  destruct Hr as [->|[Hin Hle]]; [discriminate|].
  apply sizes_le_256 in Hin.
  destruct (fixed_prefix_ok pos (Z.to_nat r) 0 []) as (s & ->); [lia | lia |].
  cbn [bind]. apply commit_ok. lia.
Qed.

Lemma try_float_ok (pos : Z) :
  0 <= pos < size -> candidate_ok pos (try_float data size pos).
Proof.
  intros Hpos. unfold try_float.
  destruct (pos + 4 <=? size) eqn:E; [|apply reject_ok].
  destruct (rd_DWORD_in data pos) as (u & -> & _); [lia | lia |].
  cbn [bind]. destruct (IsReasonableFloat _); [apply commit_ok; lia | apply reject_ok].
Qed.

Lemma try_int32_ok (pos : Z) :
  0 <= pos < size -> candidate_ok pos (try_int32 data size pos).
Proof.
  intros Hpos. unfold try_int32.
  destruct (pos + 4 <=? size) eqn:E; [|apply reject_ok].
  destruct (rd_DWORD_in data pos) as (u & -> & _); [lia | lia |].
  cbn [bind]. destruct (_ && _); [apply commit_ok; lia|].
  destruct (IsReasonableDWORD u); [apply commit_ok; lia | apply reject_ok].
Qed.

Lemma try_int16_ok (pos : Z) :
  0 <= pos < size -> candidate_ok pos (try_int16 data size pos).
Proof.
  intros Hpos. unfold try_int16.
  destruct (pos + 2 <=? size) eqn:E; [|apply reject_ok].
  destruct (rd_WORD_in data pos) as (u & -> & _); [lia | lia |].
  cbn [bind]. destruct (_ && _); [apply commit_ok; lia|].
  destruct (_ && _); [apply commit_ok; lia | apply reject_ok].
Qed.

Lemma byte_fallback_ok (pos : Z) :
  0 <= pos < size ->
  exists x, byte_fallback data pos = Ok x /\ advances pos x.
Proof.
  intros Hpos. unfold byte_fallback. next_rd c.
  eexists; split; [reflexivity|]. unfold advances; cbn. lia.
Qed.

Lemma or_else_ok (pos : Z) (c : Candidate) (rest : M (FieldRecord * Z)) :
  candidate_ok pos c ->
  (exists x, rest = Ok x /\ advances pos x) ->
  exists x, or_else c rest = Ok x /\ advances pos x.
Proof.
  intros (o & -> & Ho) Hrest. unfold or_else. cbn [bind].
  destruct o as [x|]; [|assumption].
  exists x. split; [reflexivity | auto].
Qed.

(** One iteration never faults and commits exactly one record. *)
Lemma classify_ok (pos : Z) :
  0 <= pos < size ->
  exists x, classify data size pos = Ok x /\ advances pos x.
Proof.
  intros Hpos. unfold classify.
  apply or_else_ok; [now apply try_string_ok|].
  apply or_else_ok; [now apply try_fixed_ok|].
  apply or_else_ok; [now apply try_float_ok|].
  apply or_else_ok; [now apply try_int32_ok|].
  apply or_else_ok; [now apply try_int16_ok|].
  now apply byte_fallback_ok.
Qed.

Lemma scan_loop_ok (left : nat) : forall pos,
  0 <= pos <= size ->
  exists rs stop,
    scan_loop left data size pos = Ok (rs, stop)
    /\ tiles pos rs stop /\ pos <= stop <= size
    /\ (List.length rs <= left)%nat
    /\ (stop < size -> List.length rs = left)
    /\ stop <= pos + 256 * Z.of_nat left.
Proof.
  induction left as [|left IH]; intros pos Hpos; cbn [scan_loop].
  - exists [], pos. destruct (pos <? size) eqn:E; cbn; splits; auto; lia.
  - destruct (pos <? size) eqn:E.
    + destruct (classify_ok pos) as ([r p1] & -> & A & B & C & W); [lia|].
      cbn in A, B, C, W. cbn [bind].
      destruct (IH p1) as (rs & stop & -> & T & S & L & F & G); [lia|].
      cbn [bind ret]. exists (r :: rs), stop.
      split; [reflexivity|]. cbn [tiles List.length].
      replace (f_off r + f_width r) with p1 by lia.
      splits; try lia; try assumption.
    + exists [], pos. cbn. splits; auto; lia.
Qed.

Lemma scan_start_ok :
  exists start, scan_start data size = Ok start
                /\ (start = 1 \/ (start = 3 /\ 3 <= size /\ rd_WORD data 1 = Ok size)).
Proof.
  unfold scan_start. destruct (3 <=? size) eqn:E.
  - destruct (rd_WORD_in data 1) as (u & R & _); [lia | lia |].
    rewrite R. cbn [bind ret]. destruct (u =? size) eqn:U.
    + exists 3. split; [reflexivity|]. right. repeat split; try lia.
      f_equal. lia.
    + exists 1. auto.
  - exists 1. auto.
Qed.

End InBounds.

(** The cursor stays small whatever the size of the buffer: at most 16
    records of at most 256 bytes each are committed. *)
Lemma cursor_bound (data : list byte) (size start : Z)
      (rs : list FieldRecord) (stop : Z) :
  size <= Z.of_nat (List.length data) ->
  0 <= start <= 3 -> start <= size ->
  scan_loop PKT_DBG_MAX_FIELDS data size start = Ok (rs, stop) ->
  stop <= 3 + 256 * 16.
Proof.
  intros Hsz H0 H1 H.
  destruct (scan_loop_ok data size Hsz PKT_DBG_MAX_FIELDS start)
    as (rs' & stop' & R & _ & _ & _ & _ & G); [lia|].
  rewrite H in R. injection R as <- <-.
  unfold PKT_DBG_MAX_FIELDS in G. lia.
Qed.

(** ** Shape of a tiling *)

Lemma tiles_le (rs : list FieldRecord) : forall from to,
  tiles from rs to -> from <= to.
Proof.
  induction rs as [|r rs IH]; cbn; intros from to H; [lia|].
  destruct H as (A & B & C). apply IH in C. lia.
Qed.

Lemma tiles_contiguous (rs : list FieldRecord) : forall from to,
  tiles from rs to -> contiguous from rs.
Proof.
  induction rs as [|r rs IH]; cbn; intros from to H; [exact I|].
  destruct H as (A & B & C). split; [assumption | eauto].
Qed.

Lemma tiles_within (rs : list FieldRecord) : forall from to,
  tiles from rs to -> Forall (within from to) rs.
Proof.
  induction rs as [|r rs IH]; cbn; intros from to H; [constructor|].
  destruct H as (A & B & C). pose proof (tiles_le _ _ _ C) as Hle.
  constructor.
  - unfold within. lia.
  - eapply Forall_impl; [|apply (IH _ _ C)].
    unfold within. intros a Ha. lia.
Qed.

Lemma tiles_increasing (rs : list FieldRecord) : forall from to,
  tiles from rs to -> offsets_increasing rs.
Proof.
  unfold offsets_increasing.
  induction rs as [|r rs IH]; cbn; intros from to H; [constructor|].
  destruct H as (A & B & C). constructor; [eauto|].
  eapply Forall_impl; [|apply (tiles_within _ _ _ C)].
  unfold within. intros a Ha. lia.
Qed.

Lemma fields_of_map_LField (rs : list FieldRecord) (tail : list Line) :
  fields_of (map LField rs ++ tail) = rs ++ fields_of tail.
Proof.
  induction rs as [|r rs IH]; cbn; [reflexivity|].
  f_equal. exact IH.
Qed.

Lemma more_of_map_LField (rs : list FieldRecord) (tail : list Line) :
  more_of (map LField rs ++ tail) = more_of tail.
Proof.
  induction rs as [|r rs IH]; cbn; [reflexivity | exact IH].
Qed.

(** What [PrintContent] prints, in terms of its two phases. *)
Lemma PrintContent_unfold (data : list byte) (size : Z) :
  size <= Z.of_nat (List.length data) ->
  exists start rs stop,
    scan_start data size = Ok start
    /\ (start = 1 \/ (start = 3 /\ 3 <= size /\ rd_WORD data 1 = Ok size))
    /\ ((size <= 1 /\ PrintContent data size = Ok [LEmpty] /\ rs = [] /\ stop = start)
        \/ (1 < size <= start /\ PrintContent data size = Ok [LHeaderOnly]
            /\ rs = [] /\ stop = start)
        \/ (1 < size /\ start < size
            /\ scan_loop PKT_DBG_MAX_FIELDS data size start = Ok (rs, stop)
            /\ tiles start rs stop /\ start <= stop <= size
            /\ (List.length rs <= PKT_DBG_MAX_FIELDS)%nat
            /\ (stop < size -> List.length rs = PKT_DBG_MAX_FIELDS)
            /\ PrintContent data size
               = Ok (LNewline :: map LField rs
                       ++ (if stop <? size then [LMore (size - stop)] else [])))).
Proof.
  intros Hsz. destruct (scan_start_ok data size Hsz) as (start & Hs & Hstart).
  unfold PrintContent. rewrite Hs. cbn [bind].
  destruct (size <=? 1) eqn:E1.
  - exists start, [], start. repeat split; auto. left. repeat split; auto. lia.
  - destruct (size <=? start) eqn:E2.
    + exists start, [], start. repeat split; auto. right; left. repeat split; auto; lia.
    + destruct (scan_loop_ok data size Hsz PKT_DBG_MAX_FIELDS start)
        as (rs & stop & R & T & S & L & F & _); [lia|].
      exists start, rs, stop. rewrite R. cbn [bind ret].
      repeat split; auto. right; right. repeat split; auto; lia.
Qed.

(** ** Bytes past those read do not matter

    A run that does not fault on a buffer gives the same result on any
    buffer that extends it. *)

Section Extension.

Variables small rest : list byte.

#[local] Abbreviation big := (small ++ rest).

Lemma rd_ext (i : Z) (b : byte) : rd small i = Ok b -> rd big i = Ok b.
Proof.
  intros H. pose proof (rd_Ok_in _ _ _ H) as Hi. unfold rd in *.
  destruct (i <? 0); [discriminate|].
  rewrite nth_error_app1 by lia. exact H.
Qed.

(** Step over the next read of [small]: either it faults, and so does the
    run on [small], or [big] has the same byte there. *)
Ltac ext_rd :=
  match goal with
  | |- context [rd small ?i] =>
      let E := fresh "E" in
      destruct (rd small i) eqn:E;
      [rewrite ?(rd_ext _ _ E); cbn [bind ret] | cbn [bind ret]; discriminate]
  end.

Lemma rd_WORD_ext (i : Z) (u : Z) : rd_WORD small i = Ok u -> rd_WORD big i = Ok u.
Proof. unfold rd_WORD. repeat ext_rd. auto. Qed.

Lemma rd_DWORD_ext (i : Z) (u : Z) : rd_DWORD small i = Ok u -> rd_DWORD big i = Ok u.
Proof. unfold rd_DWORD. repeat ext_rd. auto. Qed.

Lemma str_run_ext (size : Z) (room : nat) : forall pos s v,
  str_run room small size pos s = Ok v -> str_run room big size pos s = Ok v.
Proof.
  induction room as [|room IH]; intros pos s v; cbn [str_run];
    (destruct (pos <? size); [|auto]); ext_rd;
    (destruct (_ && _); [|auto]); auto.
Qed.

Lemma count_region_ext (base : Z) (n : nat) : forall i p q v,
  count_region n small base i p q = Ok v -> count_region n big base i p q = Ok v.
Proof.
  induction n as [|n IH]; intros i p q v; cbn [count_region]; [auto|].
  ext_rd. destruct (IsPrintable _); [auto|]. destruct (_ =? 0); auto.
Qed.

Lemma DetectFixedString_from_ext (base maxLen : Z) (szs : list Z) (v : Z) :
  DetectFixedString_from szs small base maxLen = Ok v ->
  DetectFixedString_from szs big base maxLen = Ok v.
Proof.
  induction szs as [|sz szs IH]; cbn [DetectFixedString_from]; [auto|].
  destruct (maxLen <? sz); [auto|].
  destruct (count_region (Z.to_nat sz) small base 0 0 0) as [[[valid pr] nu]|] eqn:E;
    [|discriminate].
  rewrite (count_region_ext _ _ _ _ _ _ E). cbn [bind].
  destruct (_ && _); auto.
Qed.

Lemma fixed_prefix_ext (pos : Z) (n : nat) : forall i s v,
  fixed_prefix n small pos i s = Ok v -> fixed_prefix n big pos i s = Ok v.
Proof.
  induction n as [|n IH]; intros i s v; cbn [fixed_prefix]; [auto|].
  ext_rd. destruct (_ =? 0); auto.
Qed.

Lemma try_string_ext (size pos : Z) (v : option (FieldRecord * Z)) :
  try_string small size pos = Ok v -> try_string big size pos = Ok v.
Proof.
  unfold try_string. ext_rd. destruct (IsPrintable _); [|auto].
  destruct (str_run 64 small size pos []) as [[p s]|] eqn:Hrun; [|discriminate].
  rewrite (str_run_ext _ _ _ _ _ Hrun). cbn [bind].
  unfold at_end_or_null, at_null.
  destruct (_ <=? Z.of_nat _); cbn [bind ret]; [|auto].
  destruct (size <=? p); cbn [bind ret].
  - destruct (p <? size); cbn [bind ret]; [ext_rd|]; auto.
  - ext_rd. destruct (_ =? 0); [|auto].
    destruct (p <? size); cbn [bind ret]; auto.
Qed.

Lemma try_fixed_ext (size pos : Z) (v : option (FieldRecord * Z)) :
  try_fixed small size pos = Ok v -> try_fixed big size pos = Ok v.
Proof.
  unfold try_fixed, DetectFixedString.
  destruct (DetectFixedString_from sizes small pos (size - pos)) as [n|] eqn:E;
    [|discriminate].
  rewrite (DetectFixedString_from_ext _ _ _ _ E). cbn [bind].
  destruct (0 <? n); [|auto].
  destruct (fixed_prefix (Z.to_nat n) small pos 0 []) as [s|] eqn:F; [|discriminate].
  rewrite (fixed_prefix_ext _ _ _ _ _ F). auto.
Qed.

Lemma try_float_ext (size pos : Z) (v : option (FieldRecord * Z)) :
  try_float small size pos = Ok v -> try_float big size pos = Ok v.
Proof.
  unfold try_float. destruct (pos + 4 <=? size); [|auto].
  destruct (rd_DWORD small pos) as [u|] eqn:E; [|discriminate].
  rewrite (rd_DWORD_ext _ _ E). auto.
Qed.

Lemma try_int32_ext (size pos : Z) (v : option (FieldRecord * Z)) :
  try_int32 small size pos = Ok v -> try_int32 big size pos = Ok v.
Proof.
  unfold try_int32. destruct (pos + 4 <=? size); [|auto].
  destruct (rd_DWORD small pos) as [u|] eqn:E; [|discriminate].
  rewrite (rd_DWORD_ext _ _ E). auto.
Qed.

Lemma try_int16_ext (size pos : Z) (v : option (FieldRecord * Z)) :
  try_int16 small size pos = Ok v -> try_int16 big size pos = Ok v.
Proof.
  unfold try_int16. destruct (pos + 2 <=? size); [|auto].
  destruct (rd_WORD small pos) as [u|] eqn:E; [|discriminate].
  rewrite (rd_WORD_ext _ _ E). auto.
Qed.

Lemma or_else_ext (a a' : Candidate) (b b' : M (FieldRecord * Z)) :
  (forall v, a = Ok v -> a' = Ok v) ->
  (forall v, b = Ok v -> b' = Ok v) ->
  forall v, or_else a b = Ok v -> or_else a' b' = Ok v.
Proof.
  intros Ha Hb v. unfold or_else. destruct a as [o|]; [|discriminate].
  rewrite (Ha o eq_refl). cbn [bind]. destruct o; auto.
Qed.

Lemma classify_ext (size pos : Z) (v : FieldRecord * Z) :
  classify small size pos = Ok v -> classify big size pos = Ok v.
Proof.
  unfold classify.
  repeat (apply or_else_ext;
          [first [apply try_string_ext | apply try_fixed_ext | apply try_float_ext
                 | apply try_int32_ext | apply try_int16_ext] | intros ?]).
  unfold byte_fallback. ext_rd. auto.
Qed.

Lemma scan_loop_ext (size : Z) (left : nat) : forall pos v,
  scan_loop left small size pos = Ok v -> scan_loop left big size pos = Ok v.
Proof.
  induction left as [|left IH]; intros pos v; cbn [scan_loop]; [auto|].
  destruct (pos <? size); [|auto].
  destruct (classify small size pos) as [[r p1]|] eqn:E; [|discriminate].
  rewrite (classify_ext _ _ _ E). cbn [bind].
  destruct (scan_loop left small size p1) as [[rs p2]|] eqn:F; [|discriminate].
  rewrite (IH _ _ F). auto.
Qed.

Lemma scan_start_ext (size : Z) (v : Z) :
  scan_start small size = Ok v -> scan_start big size = Ok v.
Proof.
  unfold scan_start. destruct (3 <=? size); [|auto].
  destruct (rd_WORD small 1) as [u|] eqn:E; [|discriminate].
  rewrite (rd_WORD_ext _ _ E). auto.
Qed.

Lemma PrintContent_ext (size : Z) (out : list Line) :
  PrintContent small size = Ok out -> PrintContent big size = Ok out.
Proof.
  unfold PrintContent. destruct (size <=? 1); [auto|].
  destruct (scan_start small size) as [start|] eqn:E; [|discriminate].
  rewrite (scan_start_ext _ _ E). cbn [bind].
  destruct (size <=? start); [auto|].
  destruct (scan_loop PKT_DBG_MAX_FIELDS small size start) as [[rs stop]|] eqn:F;
    [|discriminate].
  rewrite (scan_loop_ext _ _ _ _ F). auto.
Qed.

End Extension.

(** ** The disassembler *)

Lemma PrintContent_tiles (data : list byte) (size : Z) :
  size <= Z.of_nat (List.length data) ->
  exists out start,
    PrintContent data size = Ok out
    /\ scan_start data size = Ok start
    /\ contiguous start (fields_of out)
    /\ offsets_increasing (fields_of out)
    /\ Forall (within start size) (fields_of out).
Proof.
  intros Hlen.
  destruct (PrintContent_unfold data size Hlen)
    as (start & rs & stop & Hs & _ & [H|[H|H]]).
  - destruct H as (_ & -> & _). exists [LEmpty], start. cbn.
    splits; auto; constructor.
  - destruct H as (_ & -> & _). exists [LHeaderOnly], start. cbn.
    splits; auto; constructor.
  - destruct H as (_ & _ & _ & T & B & _ & _ & ->).
    eexists; exists start. split; [reflexivity|]. split; [assumption|].
    cbn [fields_of flat_map app]. fold (fields_of (map LField rs
      ++ (if stop <? size then [LMore (size - stop)] else []))).
    rewrite fields_of_map_LField.
    replace (fields_of (if stop <? size then [LMore (size - stop)] else []))
      with (@nil FieldRecord) by (destruct (stop <? size); reflexivity).
    rewrite app_nil_r. splits.
    + eapply tiles_contiguous; eassumption.
    + eapply tiles_increasing; eassumption.
    + eapply Forall_impl; [|eapply tiles_within; eassumption].
      unfold within. intros r Hr. lia.
Qed.

(** C1.  On the first [size] bytes of the buffer alone, where a read at an
    index [>= size] would fault, [PrintContent] finishes without a fault,
    and it prints the same on the whole buffer: no byte at an index
    [>= size] is read.  The field records committed are contiguous from
    the computed scan start, strictly increasing in offset, and each
    occupies a non-empty range [[f_off, f_off + f_width)] inside
    [[start, size)]. *)
Theorem PrintContent_records_tile_buffer (data : list byte) (size : Z) :
  size <= Z.of_nat (List.length data) ->
  exists out start,
    PrintContent (firstn (Z.to_nat size) data) size = Ok out
    /\ PrintContent data size = Ok out
    /\ scan_start data size = Ok start
    /\ contiguous start (fields_of out)
    /\ offsets_increasing (fields_of out)
    /\ Forall (within start size) (fields_of out).
Proof.
  intros Hlen.
  destruct (PrintContent_tiles (firstn (Z.to_nat size) data) size)
    as (out & start & P & S & C & I & W); [rewrite length_firstn; lia|].
  exists out, start.
  pose proof (PrintContent_ext _ (skipn (Z.to_nat size) data) _ _ P) as P'.
  pose proof (scan_start_ext _ (skipn (Z.to_nat size) data) _ _ S) as S'.
  rewrite firstn_skipn in P', S'.
  splits; assumption.
Qed.

Lemma PrintContent_records_tile_buffer_witness :
  exists out start,
    PrintContent (firstn (Z.to_nat 6) [x10; x41; x42; x43; x00; x07; xff; xff]) 6
    = Ok out
    /\ PrintContent [x10; x41; x42; x43; x00; x07; xff; xff] 6 = Ok out
    /\ scan_start [x10; x41; x42; x43; x00; x07; xff; xff] 6 = Ok start
    /\ contiguous start (fields_of out)
    /\ offsets_increasing (fields_of out)
    /\ Forall (within start 6) (fields_of out).
Proof.
  apply (PrintContent_records_tile_buffer
           [x10; x41; x42; x43; x00; x07; xff; xff] 6).
  vm_compute. discriminate.
Defined.

(** C2.  [PrintContent] commits at most [PKT_DBG_MAX_FIELDS] records.  When
    the classification loop exits at [stop < size], what is printed ends in
    one "+N more bytes" line, the only one, with [N = size - stop]; when it
    exits at [stop = size] no such line is printed. *)
Theorem PrintContent_cap_and_remainder (data : list byte) (size : Z) :
  size <= Z.of_nat (List.length data) ->
  exists out,
    PrintContent data size = Ok out
    /\ (List.length (fields_of out) <= PKT_DBG_MAX_FIELDS)%nat
    /\ forall start rs stop,
         1 < size -> scan_start data size = Ok start -> start < size ->
         scan_loop PKT_DBG_MAX_FIELDS data size start = Ok (rs, stop) ->
         fields_of out = rs
         /\ stop <= size
         /\ (stop < size ->
               exists body, out = body ++ [LMore (size - stop)]
                            /\ more_of body = []
                            /\ more_of out = [size - stop])
         /\ (stop = size -> more_of out = []).
Proof.
  intros Hsz.
  destruct (PrintContent_unfold data size Hsz)
    as (start & rs & stop & Hs & _ & [H|[H|H]]).
  - destruct H as (A & -> & _). exists [LEmpty].
    split; [reflexivity|]. split; [cbn; lia|]. intros; lia.
  - destruct H as (A & -> & _). exists [LHeaderOnly].
    split; [reflexivity|]. split; [cbn; lia|].
    intros start' rs' stop' _ Hs' Hlt _. rewrite Hs in Hs'.
    injection Hs' as <-. lia.
  - destruct H as (_ & _ & R & _ & B & L & _ & ->).
    eexists. split; [reflexivity|].
    assert (forall tail, fields_of tail = [] ->
              fields_of (LNewline :: map LField rs ++ tail) = rs) as Hf.
    { intros tail Ht. change (fields_of (LNewline :: map LField rs ++ tail))
        with (fields_of (map LField rs ++ tail)).
      rewrite fields_of_map_LField, Ht. apply app_nil_r. }
    assert (forall tail, more_of (LNewline :: map LField rs ++ tail) = more_of tail)
      as Hm.
    { intros tail. change (more_of (LNewline :: map LField rs ++ tail))
        with (more_of (map LField rs ++ tail)).
      apply more_of_map_LField. }
    split.
    { rewrite Hf; [exact L|]. destruct (stop <? size); reflexivity. }
    intros start' rs' stop' _ Hs' _ R'. rewrite Hs in Hs'. injection Hs' as <-.
    rewrite R in R'. injection R' as <- <-.
    split; [apply Hf; destruct (stop <? size); reflexivity|].
    split; [lia|]. split.
    + intros Hlt. destruct (stop <? size) eqn:E; [|lia].
      exists (LNewline :: map LField rs). splits.
      * reflexivity.
      * rewrite <- (app_nil_r (map LField rs)). rewrite (Hm []). reflexivity.
      * rewrite Hm. reflexivity.
    + intros ->. rewrite Hm. rewrite Z.ltb_irrefl. reflexivity.
Qed.

Lemma PrintContent_cap_and_remainder_witness :
  exists out,
    PrintContent (x10 :: repeat x00 40) 41 = Ok out
    /\ (List.length (fields_of out) <= PKT_DBG_MAX_FIELDS)%nat
    /\ List.length (fields_of out) = 16%nat
    /\ more_of out = [24].
Proof.
  destruct (PrintContent_cap_and_remainder (x10 :: repeat x00 40) 41)
    as (out & Ho & Hl & H); [vm_compute; discriminate|].
  exists out. split; [exact Ho|]. split; [exact Hl|].
  edestruct (H 1) as (A & B & C & D);
    [lia | reflexivity | lia | vm_compute; reflexivity |].
  split; [rewrite A; reflexivity|].
  destruct C as (body & _ & _ & C); [lia | exact C].
Defined.

(** C3.  With at least 3 bytes, of which those at offsets 1 and 2 read as a
    little-endian [WORD] equal to [size], scanning starts at offset 3; for
    every other buffer of at least 2 bytes it starts at offset 1.  When the
    start is [>= size] the output is the single line "(header only)", with
    no field record; otherwise the first record printed is at the start
    offset. *)
Theorem scan_start_dynamic_length (data : list byte) (size : Z) :
  size <= Z.of_nat (List.length data) ->
  (3 <= size -> rd_WORD data 1 = Ok size -> scan_start data size = Ok 3)
  /\ (2 <= size -> ~ (3 <= size /\ rd_WORD data 1 = Ok size) ->
      scan_start data size = Ok 1)
  /\ (forall start,
        2 <= size -> scan_start data size = Ok start ->
        (size <= start ->
           PrintContent data size = Ok [LHeaderOnly]
           /\ fields_of [LHeaderOnly] = [])
        /\ (start < size ->
              exists r rest,
                PrintContent data size = Ok (LNewline :: LField r :: rest)
                /\ f_off r = start)).
Proof.
  intros Hsz. splits.
  - intros H3 Hw. unfold scan_start.
    destruct (3 <=? size) eqn:E; [|lia].
    rewrite Hw. cbn [bind ret]. rewrite Z.eqb_refl. reflexivity.
  - intros H2 Hn. unfold scan_start.
    destruct (3 <=? size) eqn:E; [|reflexivity].
    destruct (rd_WORD_in data 1) as (u & R & _); [lia | lia |].
    rewrite R. cbn [bind ret]. destruct (u =? size) eqn:U; [|reflexivity].
    exfalso. apply Hn. split; [lia|]. rewrite R. f_equal. lia.
  - intros start H2 Hs.
    destruct (PrintContent_unfold data size Hsz)
      as (start' & rs & stop & Hs' & _ & H).
    rewrite Hs in Hs'. injection Hs' as <-.
    destruct H as [H|[H|H]]; [lia | |].
    + destruct H as (A & -> & _). split; [auto|]. intros; lia.
    + destruct H as (_ & Hlt & R & T & B & _ & F & ->).
      split; [intros; lia|]. intros _.
      destruct rs as [|r rs].
      { cbn in T. subst stop. specialize (F Hlt). discriminate F. }
      cbn in T. destruct T as (Hoff & _).
      eexists r, _. split; [reflexivity | assumption].
Qed.

Lemma scan_start_dynamic_length_witness :
  scan_start [x10; x04; x00; x07] 4 = Ok 3
  /\ scan_start [x10; x05; x00; x07] 4 = Ok 1
  /\ PrintContent [x10; x03; x00] 3 = Ok [LHeaderOnly].
Proof.
  splits.
  - apply (scan_start_dynamic_length [x10; x04; x00; x07] 4);
      [vm_compute; discriminate | lia | reflexivity].
  - apply (scan_start_dynamic_length [x10; x05; x00; x07] 4);
      [vm_compute; discriminate | lia |].
    intros [_ H]. vm_compute in H. discriminate.
  - apply (scan_start_dynamic_length [x10; x03; x00] 3) with (start := 3);
      [vm_compute; discriminate | lia | reflexivity | lia].
Defined.

(** C5.  [[h, 'A', 'B', 'C', 0]] with [size = 5]: the dynamic-length rule
    does not fire whatever [h] is; one record is printed, the string "ABC"
    (3 characters) at offset 1, and its 4 bytes, the run and the null, are
    consumed.  [[h, 'A', 'B', 0]] with [size = 4]: the string candidate
    rejects at offset 1, so does the fixed-size one, and the record
    committed at offset 1 is the 16-bit [WORD]; the null then falls to the
    single byte. *)
Theorem PrintContent_ABC (h : byte) :
  scan_start [h; x41; x42; x43; x00] 5 = Ok 1
  /\ PrintContent [h; x41; x42; x43; x00] 5
     = Ok [LNewline; LField (mkField 1 (KString 4 "ABC") 4)]
  /\ String.length "ABC" = 3%nat
  /\ scan_start [h; x41; x42; x00] 4 = Ok 1
  /\ try_string [h; x41; x42; x00] 4 1 = Ok None
  /\ try_fixed [h; x41; x42; x00] 4 1 = Ok None
  /\ classify [h; x41; x42; x00] 4 1 = Ok (mkField 1 (KWORD 16961) 2, 3)
  /\ PrintContent [h; x41; x42; x00] 4
     = Ok [LNewline; LField (mkField 1 (KWORD 16961) 2);
           LField (mkField 3 (KBool 0) 1)].
Proof.
  splits; vm_compute; reflexivity.
Qed.

Lemma length_string_of_list_byte (l : list byte) :
  String.length (string_of_list_byte l) = List.length l.
Proof.
  unfold string_of_list_byte. induction l as [|b l IH]; cbn; [reflexivity|].
  f_equal. exact IH.
Qed.

(** C10.  When the null-terminated candidate commits, the width printed in
    "char[N]" is the length of the printable run plus 1.  Either the run is
    followed by a null inside the buffer, which is consumed with it, or the
    run reaches the end of the buffer; then only the run is consumed and
    the printed width is one more than the bytes consumed. *)
Theorem try_string_label_width (data : list byte) (size pos : Z)
        (r : FieldRecord) (pos' : Z) :
  size <= Z.of_nat (List.length data) ->
  try_string data size pos = Ok (Some (r, pos')) ->
  exists run s,
    f_off r = pos
    /\ f_kind r = KString (run + 1) s
    /\ Z.of_nat (String.length s) = run
    /\ PKT_DBG_MIN_STR_LEN <= run <= 64
    /\ (forall i, pos <= i < pos + run ->
          exists c, rd data i = Ok c /\ IsPrintable c = true)
    /\ f_width r = pos' - pos
    /\ ((pos + run < size /\ rd data (pos + run) = Ok x00
         /\ f_width r = run + 1)
        \/ (pos + run = size /\ f_width r = run /\ run + 1 = f_width r + 1)).
Proof.
  intros Hsz H. unfold try_string in H.
  destruct (rd data pos) as [c|] eqn:Rc; [|discriminate]. cbn [bind] in H.
  pose proof (rd_Ok_in _ _ _ Rc) as Hpos.
  destruct (IsPrintable c); [|discriminate].
  destruct (str_run_spec data size Hsz 64 pos [] ltac:(lia))
    as (p & s & R & A & B & B' & C & D & F & _).
  rewrite R in H. cbn [bind] in H. cbn in D.
  destruct (PKT_DBG_MIN_STR_LEN <=? Z.of_nat (List.length s)) eqn:L;
    [|discriminate].
  unfold PKT_DBG_MIN_STR_LEN in *.
  assert (pos < size) as Hlt by lia.
  unfold at_end_or_null, at_null in H.
  exists (p - pos), (string_of_list_byte s).
  rewrite length_string_of_list_byte.
  replace (pos + (p - pos)) with p by lia.
  destruct (size <=? p) eqn:E1; cbn [bind ret] in H.
  - destruct (p <? size) eqn:E2; [lia|]. cbn [bind ret] in H.
    unfold commit, ret in H. injection H as <- <-. cbn.
    rewrite D. splits; try lia; try reflexivity; try assumption.
  - destruct (rd data p) as [c1|] eqn:R1; [|discriminate]. cbn [bind ret] in H.
    destruct (BYTE_val c1 =? 0) eqn:Z1; [|discriminate].
    destruct (p <? size) eqn:E2; [|lia]. cbn [bind ret] in H.
    unfold commit, ret in H. injection H as <- <-. cbn.
    rewrite D. splits; try lia; try reflexivity; try assumption.
    left. splits; try lia. f_equal.
    destruct c1; try reflexivity; vm_compute in Z1; discriminate.
Qed.

Lemma try_string_label_width_witness :
  exists run s,
    f_off (mkField 1 (KString 5 "ABCD") 4) = 1
    /\ f_kind (mkField 1 (KString 5 "ABCD") 4) = KString (run + 1) s
    /\ Z.of_nat (String.length s) = run
    /\ PKT_DBG_MIN_STR_LEN <= run <= 64
    /\ (forall i, 1 <= i < 1 + run ->
          exists c, rd [x10; x41; x42; x43; x44] i = Ok c /\ IsPrintable c = true)
    /\ f_width (mkField 1 (KString 5 "ABCD") 4) = 5 - 1
    /\ ((1 + run < 5 /\ rd [x10; x41; x42; x43; x44] (1 + run) = Ok x00
         /\ f_width (mkField 1 (KString 5 "ABCD") 4) = run + 1)
        \/ (1 + run = 5 /\ f_width (mkField 1 (KString 5 "ABCD") 4) = run
            /\ run + 1 = f_width (mkField 1 (KString 5 "ABCD") 4) + 1)).
Proof.
  apply (try_string_label_width [x10; x41; x42; x43; x44] 5 1
           (mkField 1 (KString 5 "ABCD") 4) 5).
  - vm_compute. discriminate.
  - reflexivity.
Defined.

(** ** The 16-bit candidate *)

Lemma classify_at_int16 (data : list byte) (size pos : Z) :
  reaches_int16 data size pos ->
  classify data size pos
  = or_else (try_int16 data size pos) (byte_fallback data pos).
Proof.
  intros ((A & B) & C & D). unfold classify.
  rewrite A, B, C, D. reflexivity.
Qed.

Lemma byte_fallback_kind (data : list byte) (pos : Z) (r : FieldRecord) (p : Z) :
  byte_fallback data pos = Ok (r, p) ->
  exists val, f_kind r = KBool val \/ f_kind r = KByte val.
Proof.
  unfold byte_fallback. destruct (rd data pos) as [c|]; [|discriminate].
  cbn [bind ret]. intros [= <- <-]. exists (BYTE_val c). cbn.
  destruct (_ || _); auto.
Qed.

(** C6, as the code has it.  At an offset with at least 2 bytes left that
    reaches the 16-bit candidate, the record committed is a [short] exactly
    when the signed value is negative and strictly above -32000, that is in
    [[-31999, -1]]; it is a [WORD] exactly when that test fails and the
    unsigned value is strictly between 0 and 0xFFF0, which includes 33536,
    the pattern of -32000.  Both consume 2 bytes. *)
Theorem classify_int16_ranges (data : list byte) (size pos : Z) :
  size <= Z.of_nat (List.length data) ->
  0 <= pos -> pos + 2 <= size ->
  reaches_int16 data size pos ->
  exists u,
    rd_WORD data pos = Ok u /\ 0 <= u < 65536
    /\ (classify data size pos = Ok (mkField pos (KShort (as_short u) u) 2, pos + 2)
        <-> -32000 < as_short u < 0)
    /\ (classify data size pos = Ok (mkField pos (KWORD u) 2, pos + 2)
        <-> ~ (-32000 < as_short u < 0) /\ 0 < u < 0xFFF0)
    /\ (as_short u = -32000 ->
        classify data size pos = Ok (mkField pos (KWORD 33536) 2, pos + 2))
    /\ (forall r p sv uv,
          classify data size pos = Ok (r, p) ->
          f_kind r = KShort sv uv \/ f_kind r = KWORD uv ->
          f_width r = 2 /\ p = pos + 2).
Proof.
  intros Hsz H0 H2 Hreach.
  destruct (rd_WORD_in data pos H0 ltac:(lia)) as (u & Ru & Hu).
  exists u. split; [assumption|]. split; [assumption|].
  rewrite (classify_at_int16 _ _ _ Hreach).
  unfold try_int16. destruct (pos + 2 <=? size) eqn:E; [|lia].
  rewrite Ru. cbn [bind]. unfold or_else, commit, reject.
  assert (forall r p sv uv, byte_fallback data pos = Ok (r, p) ->
            f_kind r = KShort sv uv \/ f_kind r = KWORD uv -> False) as Hfb.
  { intros r p sv uv Hb Hk. destruct (byte_fallback_kind _ _ _ _ Hb) as (v & [K|K]);
      rewrite K in Hk; destruct Hk; discriminate. }
  replace (pos + 2 - pos) with 2 by lia.
  unfold as_short in *. destruct (u <? 32768) eqn:Eu.
  - (* non-negative as a short *)
    replace ((u <? 0) && (-32000 <? u)) with false
      by (symmetry; apply andb_false_iff; left; lia).
    destruct ((0 <? u) && (u <? 0xFFF0)) eqn:W; cbn [bind ret].
    + apply andb_prop in W. splits.
      * split; [intros [=] | lia].
      * split; [lia | reflexivity].
      * lia.
      * intros r p sv uv [= <- <-] _. cbn. lia.
    + apply andb_false_iff in W. splits.
      * split; [|lia]. intros Hb. exfalso.
        apply (Hfb _ _ u u Hb). left. reflexivity.
      * split; [|lia]. intros Hb. exfalso.
        apply (Hfb _ _ u u Hb). right. reflexivity.
      * lia.
      * intros r p sv uv Hb Hk. exfalso. eapply Hfb; eassumption.
  - (* negative as a short *)
    destruct ((u - 65536 <? 0) && (-32000 <? u - 65536)) eqn:S; cbn [bind ret].
    + apply andb_prop in S. splits.
      * split; [lia | reflexivity].
      * split; [intros [=] | lia].
      * lia.
      * intros r p sv uv [= <- <-] _. cbn. lia.
    + apply andb_false_iff in S.
      replace ((0 <? u) && (u <? 0xFFF0)) with true
        by (symmetry; apply andb_true_iff; lia).
      cbn [bind ret]. splits.
      * split; [intros [=] | lia].
      * split; [lia | reflexivity].
      * intros Hm. replace u with 33536 by lia. reflexivity.
      * intros r p sv uv [= <- <-] _. cbn. lia.
Qed.

Lemma classify_int16_ranges_witness :
  exists u,
    rd_WORD [x10; x00; x83] 1 = Ok u /\ 0 <= u < 65536
    /\ (classify [x10; x00; x83] 3 1 = Ok (mkField 1 (KShort (as_short u) u) 2, 1 + 2)
        <-> -32000 < as_short u < 0)
    /\ (classify [x10; x00; x83] 3 1 = Ok (mkField 1 (KWORD u) 2, 1 + 2)
        <-> ~ (-32000 < as_short u < 0) /\ 0 < u < 0xFFF0)
    /\ (as_short u = -32000 ->
        classify [x10; x00; x83] 3 1 = Ok (mkField 1 (KWORD 33536) 2, 1 + 2))
    /\ (forall r p sv uv,
          classify [x10; x00; x83] 3 1 = Ok (r, p) ->
          f_kind r = KShort sv uv \/ f_kind r = KWORD uv ->
          f_width r = 2 /\ p = 1 + 2).
Proof.
  apply (classify_int16_ranges [x10; x00; x83] 3 1).
  - vm_compute. discriminate.
  - lia.
  - lia.
  - repeat split; reflexivity.
Defined.

(** C6 as stated fails at the signed value -32000: the bytes [00 83] reach
    the 16-bit candidate, read as the [short] -32000, inside [[-32000, -1]],
    and are committed as the [WORD] 33536, not as a [short].  The bytes
    [EF FF] read as the [WORD] 0xFFEF, strictly between 0 and 0xFFF0, and
    are committed as the [short] -17, not as a [WORD]. *)
Lemma int16_minus_32000_is_WORD :
  reaches_int16 [x10; x00; x83] 3 1
  /\ (u <- rd_WORD [x10; x00; x83] 1 ;; ret (as_short u)) = Ok (-32000)
  /\ -32000 <= -32000 <= -1
  /\ try_int16 [x10; x00; x83] 3 1 = Ok (Some (mkField 1 (KWORD 33536) 2, 3))
  /\ classify [x10; x00; x83] 3 1 = Ok (mkField 1 (KWORD 33536) 2, 3)
  /\ reaches_int16 [x10; xef; xff] 3 1
  /\ rd_WORD [x10; xef; xff] 1 = Ok 0xFFEF
  /\ 0 < 0xFFEF < 0xFFF0
  /\ classify [x10; xef; xff] 3 1 = Ok (mkField 1 (KShort (-17) 0xFFEF) 2, 3).
Proof.
  unfold reaches_int16, reaches_float. splits; try lia; vm_compute; reflexivity.
Qed.

(** ** The session *)

Lemma DWORD_wrap_range (x : Z) : 0 <= DWORD_wrap x < 4294967296.
Proof. unfold DWORD_wrap. apply Z.mod_pos_bound. lia. Qed.

Lemma DWORD_wrap_small (x : Z) : 0 <= x < 4294967296 -> DWORD_wrap x = x.
Proof. unfold DWORD_wrap. apply Z.mod_small. Qed.

Lemma DWORD_wrap_add_l (x y : Z) : DWORD_wrap (DWORD_wrap x + y) = DWORD_wrap (x + y).
Proof. unfold DWORD_wrap. apply Z.add_mod_idemp_l. lia. Qed.

(** [Log] returns at once on a null buffer or a size below 1. *)
Lemma Log_invalid (env : Env) (dir : Direction) (data : option (list byte))
      (size : Z) (w : World) :
  data = None \/ size < 1 -> Log env dir data size w = Ok w.
Proof.
  intros [->|H]; [reflexivity|]. unfold Log. destruct data; [|reflexivity].
  destruct (size <? 1) eqn:E; [reflexivity | lia].
Qed.

(** [Log] touches the time reference and the log, nothing else. *)
Lemma Log_frame (env : Env) (dir : Direction) (data : option (list byte))
      (size : Z) (w w' : World) :
  Log env dir data size w = Ok w' ->
  m_bInit (inst w') = m_bInit (inst w)
  /\ m_pFile (inst w') = m_pFile (inst w)
  /\ m_nSend (inst w') = m_nSend (inst w)
  /\ m_nRecv (inst w') = m_nRecv (inst w)
  /\ m_szLogPath (inst w') = m_szLogPath (inst w).
Proof.
  unfold Log. destruct data as [p|]; [|intros [= <-]; auto].
  destruct (_ || _); [intros [= <-]; auto|].
  destruct (rd p 0); [|discriminate]. cbn [bind].
  destruct (PrintContent p size); [|discriminate]. cbn [bind ret].
  intros [= <-]. cbn. auto.
Qed.

(** On a null or empty buffer an initialized logger writes nothing and
    keeps its time reference, but it has already counted the call. *)
Lemma LogSend_invalid (env : Env) (data : option (list byte)) (size : Z) (w : World) :
  m_bInit (inst w) = true -> data = None \/ size < 1 ->
  LogSend env data size w
  = Ok (mkWorld (mkSession (m_bInit (inst w)) (m_pFile (inst w))
                           (m_dwLastTime (inst w))
                           (DWORD_wrap (m_nSend (inst w) + 1))
                           (m_nRecv (inst w)) (m_szLogPath (inst w)))
                (log w)).
Proof.
  intros Hi Hd. unfold LogSend. rewrite Hi. now apply Log_invalid.
Qed.

Lemma LogRecv_invalid (env : Env) (data : option (list byte)) (size : Z) (w : World) :
  m_bInit (inst w) = true -> data = None \/ size < 1 ->
  LogRecv env data size w
  = Ok (mkWorld (mkSession (m_bInit (inst w)) (m_pFile (inst w))
                           (m_dwLastTime (inst w))
                           (m_nSend (inst w))
                           (DWORD_wrap (m_nRecv (inst w) + 1))
                           (m_szLogPath (inst w)))
                (log w)).
Proof.
  intros Hi Hd. unfold LogRecv. rewrite Hi. now apply Log_invalid.
Qed.

(** Before [Initialize], or after [Shutdown], both calls do nothing. *)
Lemma LogSend_inactive (env : Env) (data : option (list byte)) (size : Z) (w : World) :
  m_bInit (inst w) = false ->
  LogSend env data size w = Ok w /\ LogRecv env data size w = Ok w.
Proof.
  intros Hi. unfold LogSend, LogRecv. rewrite Hi. split; reflexivity.
Qed.

(** C8 at a failing input.  On an initialized logger whose counters are 0,
    [LogSend(NULL, 0)] writes nothing and keeps the time reference, yet
    leaves [m_nSend = 1]; [LogRecv] of a buffer with [size = 0] leaves
    [m_nRecv = 1]; the footer then reports one packet sent although none
    was logged. *)
Theorem LogSend_null_counts_a_packet :
  let env := mkEnv true 1000 (mkTime 2024 1 1 12 0 0 0) in
  let w := Initialize env process_start in
  m_bInit (inst w) = true /\ m_nSend (inst w) = 0 /\ m_nRecv (inst w) = 0
  /\ (exists w1,
        LogSend env None 0 w = Ok w1
        /\ log w1 = log w
        /\ m_dwLastTime (inst w1) = m_dwLastTime (inst w)
        /\ m_nSend (inst w1) = 1
        /\ log (Shutdown w1) = log w ++ [LRule; LSessionEnd 1 0; LRuleEnd])
  /\ (exists w2,
        LogRecv env (Some [x10]) 0 w = Ok w2
        /\ log w2 = log w
        /\ m_dwLastTime (inst w2) = m_dwLastTime (inst w)
        /\ m_nRecv (inst w2) = 1).
Proof.
  cbv zeta. splits; try reflexivity.
  - eexists. splits; [rewrite LogSend_invalid by auto | ..]; reflexivity.
  - eexists. splits; [rewrite LogRecv_invalid by (auto; right; lia) | ..];
      reflexivity.
Qed.

Lemma call_effect (c : Call) (w w' : World) :
  call c w = Ok w' ->
  m_bInit (inst w')
  = match c with
    | CInitialize env => m_bInit (inst w) || fsopen_ok env
    | CShutdown => false
    | _ => m_bInit (inst w)
    end
  /\ m_nSend (inst w')
     = match c with
       | CLogSend _ _ _ =>
           if m_bInit (inst w) then DWORD_wrap (m_nSend (inst w) + 1)
           else m_nSend (inst w)
       | _ => m_nSend (inst w)
       end
  /\ m_nRecv (inst w')
     = match c with
       | CLogRecv _ _ _ =>
           if m_bInit (inst w) then DWORD_wrap (m_nRecv (inst w) + 1)
           else m_nRecv (inst w)
       | _ => m_nRecv (inst w)
       end.
Proof.
  destruct c as [env| |env data size|env data size]; cbn [call ret].
  - intros [= <-]. unfold Initialize.
    destruct (m_bInit (inst w)) eqn:Hi; [rewrite Hi; auto|].
    destruct (fsopen_ok env); cbn; auto.
  - intros [= <-]. unfold Shutdown.
    destruct (m_bInit (inst w)) eqn:Hi; cbn; auto.
  - unfold LogSend. destruct (m_bInit (inst w)) eqn:Hi.
    + intros H. apply Log_frame in H. cbn in H.
      destruct H as (A & _ & B & C & _). rewrite A, B, C. auto.
    + intros [= <-]. auto.
  - unfold LogRecv. destruct (m_bInit (inst w)) eqn:Hi.
    + intros H. apply Log_frame in H. cbn in H.
      destruct H as (A & _ & B & C & _). rewrite A, B, C. auto.
    + intros [= <-]. auto.
Qed.

Lemma run_counters (cs : list Call) : forall w w',
  counters_are_DWORDs w ->
  run cs w = Ok w' ->
  m_nSend (inst w')
  = DWORD_wrap (m_nSend (inst w) + sends_while_active (m_bInit (inst w)) cs)
  /\ m_nRecv (inst w')
     = DWORD_wrap (m_nRecv (inst w) + recvs_while_active (m_bInit (inst w)) cs).
Proof.
  induction cs as [|c cs IH]; intros w w' [Hs Hr]; cbn [run ret].
  - intros [= <-]. cbn. rewrite !Z.add_0_r, !DWORD_wrap_small by assumption. auto.
  - destruct (call c w) as [w1|] eqn:Hc; [|discriminate]. cbn [bind].
    intros Hrun. destruct (call_effect _ _ _ Hc) as (A & B & C).
    assert (counters_are_DWORDs w1) as Hinv.
    { unfold counters_are_DWORDs. rewrite B, C.
      destruct c; destruct (m_bInit (inst w)); auto using DWORD_wrap_range. }
    destruct (IH _ _ Hinv Hrun) as (S & R). rewrite S, R, A, B, C.
    destruct c; cbn [sends_while_active recvs_while_active];
      destruct (m_bInit (inst w)); cbn [orb];
      rewrite ?DWORD_wrap_add_l, ?Z.add_assoc, ?Z.add_0_l, ?Z.add_0_r; auto.
Qed.

(** C9.  [Shutdown] keeps both counters: on an initialized logger it
    appends the footer, with the counters as they are, and clears
    [m_bInit] and [m_pFile], nothing more.  [Initialize] keeps them too,
    and after a [Shutdown] it sets [m_bInit] again when the file opens.
    Hence the footer of any session of a run reports the calls counted
    since the process started, over all its sessions. *)
Theorem counters_accumulate_across_sessions :
  (forall w,
     m_nSend (inst (Shutdown w)) = m_nSend (inst w)
     /\ m_nRecv (inst (Shutdown w)) = m_nRecv (inst w))
  /\ (forall w,
        m_bInit (inst w) = true ->
        inst (Shutdown w)
        = mkSession false false (m_dwLastTime (inst w)) (m_nSend (inst w))
                    (m_nRecv (inst w)) (m_szLogPath (inst w))
        /\ log (Shutdown w)
           = log w ++ [LRule; LSessionEnd (m_nSend (inst w)) (m_nRecv (inst w));
                       LRuleEnd])
  /\ (forall env w,
        m_nSend (inst (Initialize env w)) = m_nSend (inst w)
        /\ m_nRecv (inst (Initialize env w)) = m_nRecv (inst w))
  /\ (forall env w,
        fsopen_ok env = true ->
        m_bInit (inst (Initialize env (Shutdown w))) = true
        /\ m_nSend (inst (Initialize env (Shutdown w))) = m_nSend (inst w)
        /\ m_nRecv (inst (Initialize env (Shutdown w))) = m_nRecv (inst w))
  /\ (forall cs w,
        run cs process_start = Ok w ->
        m_bInit (inst w) = true ->
        log (Shutdown w)
        = log w ++ [LRule;
                    LSessionEnd (DWORD_wrap (sends_while_active false cs))
                                (DWORD_wrap (recvs_while_active false cs));
                    LRuleEnd]).
Proof.
  assert (forall w,
            m_nSend (inst (Shutdown w)) = m_nSend (inst w)
            /\ m_nRecv (inst (Shutdown w)) = m_nRecv (inst w)) as HS.
  { intros w. unfold Shutdown. destruct (m_bInit (inst w)); cbn; auto. }
  assert (forall env w,
            m_nSend (inst (Initialize env w)) = m_nSend (inst w)
            /\ m_nRecv (inst (Initialize env w)) = m_nRecv (inst w)) as HI.
  { intros env w. unfold Initialize.
    destruct (m_bInit (inst w)); [auto|]. destruct (fsopen_ok env); cbn; auto. }
  assert (forall w, m_bInit (inst w) = true ->
            inst (Shutdown w)
            = mkSession false false (m_dwLastTime (inst w)) (m_nSend (inst w))
                        (m_nRecv (inst w)) (m_szLogPath (inst w))
            /\ log (Shutdown w)
               = log w ++ [LRule; LSessionEnd (m_nSend (inst w)) (m_nRecv (inst w));
                           LRuleEnd]) as HF.
  { intros w Hi. unfold Shutdown. rewrite Hi. cbn. auto. }
  splits; auto.
  - intros env w Ho.
    destruct (HI env (Shutdown w)) as (A & B). destruct (HS w) as (C & D).
    rewrite A, B, C, D. splits; auto.
    unfold Initialize.
    replace (m_bInit (inst (Shutdown w))) with false
      by (unfold Shutdown; destruct (m_bInit (inst w)) eqn:Hi; cbn; auto).
    rewrite Ho. reflexivity.
  - intros cs w Hrun Hi.
    destruct (run_counters cs process_start w) as (A & B);
      [unfold counters_are_DWORDs; cbn; lia | assumption |].
    cbn in A, B. destruct (HF w Hi) as (_ & ->). rewrite A, B. reflexivity.
Qed.

Lemma counters_accumulate_across_sessions_witness :
  let env := mkEnv true 1000 (mkTime 2024 1 1 12 0 0 0) in
  let session := [CInitialize env; CLogSend env (Some [x10; x07]) 2; CShutdown] in
  exists w1 w2,
    run session process_start = Ok w1
    /\ run (session ++ [CInitialize env; CLogSend env (Some [x10; x07]) 2])
           process_start = Ok w2
    /\ log w1 = [LNewline; LRule; LSessionTitle (localtime env);
                 LLogFile PKT_DBG_LOG_FILE; LRule; LColumns; LDashes;
                 LPacket SEND 1 (localtime env) 0 16 2; LNewline;
                 LField (mkField 1 (KByte 7) 1);
                 LRule; LSessionEnd 1 0; LRuleEnd]
    /\ log (Shutdown w2) = log w2 ++ [LRule; LSessionEnd 2 0; LRuleEnd].
Proof.
  cbv zeta. eexists. eexists.
  split; [vm_compute; reflexivity|].
  split; [vm_compute; reflexivity|].
  split; [reflexivity|].
  destruct counters_accumulate_across_sessions as (_ & _ & _ & _ & H).
  match goal with
  | |- log (Shutdown ?w) = _ =>
      exact (H ([CInitialize (mkEnv true 1000 (mkTime 2024 1 1 12 0 0 0));
                 CLogSend (mkEnv true 1000 (mkTime 2024 1 1 12 0 0 0))
                          (Some [x10; x07]) 2;
                 CShutdown;
                 CInitialize (mkEnv true 1000 (mkTime 2024 1 1 12 0 0 0));
                 CLogSend (mkEnv true 1000 (mkTime 2024 1 1 12 0 0 0))
                          (Some [x10; x07]) 2])
               w eq_refl eq_refl)
  end.
Defined.

(** ** binary32 comparisons *)

(** The literals are the binary32 values of their decimal text: two are
    exact, and [0.0001] lies within half a unit in the last place of
    [13743895 * 2^-37]. *)
Lemma literals_binary32 :
  9765625 * 2 ^ 10 = 10000000000
  /\ 12800000 = 100000 * 2 ^ 7
  /\ 2 * Z.abs (13743895 * 10000 - 2 ^ 37) <= 10000
  /\ canonical32 9765625 10 /\ canonical32 13743895 (-37)
  /\ canonical32 12800000 (-7).
Proof.
  unfold canonical32. splits; try reflexivity; try lia; vm_compute; congruence.
Qed.

Lemma pow2_gap (k1 k2 : Z) :
  0 <= k1 < k2 -> 0 < 2 ^ k1 /\ 2 * 2 ^ k1 <= 2 ^ k2.
Proof.
  intros H. split; [apply Z.pow_pos_nonneg; lia|].
  replace k2 with (k1 + (k2 - k1)) by lia.
  rewrite Z.pow_add_r by lia.
  assert (2 ^ 1 <= 2 ^ (k2 - k1)) by (apply Z.pow_le_mono_r; lia).
  assert (0 < 2 ^ k1) by (apply Z.pow_pos_nonneg; lia).
  change (2 ^ 1) with 2 in *. nia.
Qed.

(** On canonical positive values the comparison of IEEE-754 is the
    comparison of the exact magnitudes. *)
Lemma SFcompare_canonical (m1 m2 : positive) (e1 e2 : Z) :
  canonical32 m1 e1 -> canonical32 m2 e2 ->
  SFcompare (S754_finite false m1 e1) (S754_finite false m2 e2)
  = Some (Zpos m1 * 2 ^ (e1 + 149) ?= Zpos m2 * 2 ^ (e2 + 149)).
Proof.
  intros (A1 & B1 & C1) (A2 & B2 & C2). cbn [SFcompare]. f_equal.
  destruct (Z.compare_spec e1 e2) as [->|Hlt|Hgt].
  - rewrite Pos.compare_cont_spec. cbn [Pos.switch_Eq].
    assert (0 < 2 ^ (e2 + 149)) by (apply Z.pow_pos_nonneg; lia).
    change (Pos.compare m1 m2) with (Zpos m1 ?= Zpos m2).
    destruct (Z.compare_spec (Zpos m1) (Zpos m2)) as [E|L|G]; symmetry.
    + apply Z.compare_eq_iff. rewrite E. reflexivity.
    + apply Z.compare_lt_iff. nia.
    + apply Z.compare_gt_iff. nia.
  - symmetry. apply Z.compare_lt_iff.
    destruct (pow2_gap (e1 + 149) (e2 + 149)) as (P & Q); [lia|]. nia.
  - symmetry. apply Z.compare_gt_iff.
    destruct (pow2_gap (e2 + 149) (e1 + 149)) as (P & Q); [lia|]. nia.
Qed.

Lemma SFcompare_negative (m1 m2 : positive) (e1 e2 : Z) :
  SFcompare (S754_finite true m1 e1) (S754_finite true m2 e2)
  = option_map CompOpp
      (SFcompare (S754_finite false m1 e1) (S754_finite false m2 e2)).
Proof.
  cbn [SFcompare option_map]. destruct (e1 ?= e2); reflexivity.
Qed.

Lemma SFltb_canonical (m1 m2 : positive) (e1 e2 : Z) :
  canonical32 m1 e1 -> canonical32 m2 e2 ->
  SFltb (S754_finite false m1 e1) (S754_finite false m2 e2)
  = (Zpos m1 * 2 ^ (e1 + 149) <? Zpos m2 * 2 ^ (e2 + 149)).
Proof.
  intros H1 H2. unfold SFltb, Z.ltb. rewrite SFcompare_canonical by assumption.
  reflexivity.
Qed.

Lemma SFleb_canonical (m1 m2 : positive) (e1 e2 : Z) :
  canonical32 m1 e1 -> canonical32 m2 e2 ->
  SFleb (S754_finite false m1 e1) (S754_finite false m2 e2)
  = (Zpos m1 * 2 ^ (e1 + 149) <=? Zpos m2 * 2 ^ (e2 + 149)).
Proof.
  intros H1 H2. unfold SFleb, Z.leb. rewrite SFcompare_canonical by assumption.
  destruct (_ ?= _); reflexivity.
Qed.

Lemma SFltb_negative (m1 m2 : positive) (e1 e2 : Z) :
  canonical32 m1 e1 -> canonical32 m2 e2 ->
  SFltb (S754_finite true m1 e1) (S754_finite true m2 e2)
  = (Zpos m2 * 2 ^ (e2 + 149) <? Zpos m1 * 2 ^ (e1 + 149)).
Proof.
  intros H1 H2. unfold SFltb, Z.ltb.
  rewrite SFcompare_negative, SFcompare_canonical by assumption.
  cbn [option_map]. rewrite (Z.compare_antisym (Zpos m1 * _)).
  destruct (_ ?= _); reflexivity.
Qed.

Lemma SFeqb_finite_refl (s : bool) (m : positive) (e : Z) :
  SFeqb (S754_finite s m e) (S754_finite s m e) = true.
Proof.
  unfold SFeqb. cbn [SFcompare].
  rewrite Z.compare_refl, Pos.compare_cont_refl. destruct s; reflexivity.
Qed.

Lemma IsReasonableFloat_finite (s : bool) (m : positive) (e : Z) :
  canonical32 m e ->
  IsReasonableFloat (S754_finite s m e)
  = (13743895 * 2 ^ 112 <=? Zpos m * 2 ^ (e + 149))
    && (Zpos m * 2 ^ (e + 149) <=? 100000 * 2 ^ 149).
Proof.
  intros Hc. destruct literals_binary32 as (_ & _ & _ & C10 & Clo & Chi).
  unfold IsReasonableFloat. rewrite SFeqb_finite_refl. cbn [negb].
  unfold IEEE32.lit_0, IEEE32.lit_1e10, IEEE32.lit_0_0001, IEEE32.lit_100000.
  assert (SFeqb (S754_finite s m e) (S754_zero false) = false) as ->
    by (destruct s; reflexivity).
  assert (SFltb (S754_finite s m e) (S754_zero false) = s) as ->
    by (destruct s; reflexivity).
  assert ((if s then SFopp (S754_finite s m e) else S754_finite s m e)
          = S754_finite false m e) as -> by (destruct s; reflexivity).
  rewrite !SFleb_canonical by assumption.
  assert (SFltb (S754_finite false 9765625 10) (S754_finite s m e)
          || SFltb (S754_finite s m e) (SFopp (S754_finite false 9765625 10))
          = (9765625 * 2 ^ (10 + 149) <? Zpos m * 2 ^ (e + 149))) as ->.
  { destruct s; cbn [SFopp negb].
    - rewrite SFltb_negative by assumption. reflexivity.
    - rewrite SFltb_canonical by assumption. apply orb_false_r. }
  set (g := Zpos m * 2 ^ (e + 149)).
  destruct (Z.ltb_spec (9765625 * 2 ^ (10 + 149)) g) as [H10|H10].
  - symmetry. apply andb_false_iff. right. apply Z.leb_gt. lia.
  - f_equal.
Qed.

(** Every 32-bit pattern is a zero, an infinity, a NaN or a canonical
    finite value. *)
Lemma of_bits_cases (x : Z) :
  (exists s, IEEE32.of_bits x = S754_zero s)
  \/ (exists s, IEEE32.of_bits x = S754_infinity s)
  \/ IEEE32.of_bits x = S754_nan
  \/ (exists s m e, IEEE32.of_bits x = S754_finite s m e /\ canonical32 m e).
Proof.
  unfold IEEE32.of_bits.
  pose proof (Z.mod_pos_bound (x / 8388608) 256 ltac:(lia)) as He.
  pose proof (Z.mod_pos_bound x 8388608 ltac:(lia)) as Hm.
  destruct ((x / 8388608) mod 256 =? 0) eqn:E0.
  - destruct (x mod 8388608) as [|p|p] eqn:M; [left; eauto | | lia].
    right; right; right. eexists _, p, _. split; [reflexivity|].
    unfold canonical32. lia.
  - destruct ((x / 8388608) mod 256 =? 255) eqn:E1.
    + destruct (x mod 8388608 =? 0); [right; left; eauto | right; right; left; auto].
    + destruct (x mod 8388608 + 8388608) as [|p|p] eqn:M; [lia | | lia].
      right; right; right. eexists _, p, _. split; [reflexivity|].
      unfold canonical32. lia.
Qed.

(** [IsReasonableFloat] decides the acceptance band. *)
Lemma IsReasonableFloat_plausible (x : Z) :
  IsReasonableFloat (IEEE32.of_bits x) = true <-> plausible_float (IEEE32.of_bits x).
Proof.
  unfold plausible_float.
  destruct (of_bits_cases x) as [(s & ->)|[(s & ->)|[->|(s & m & e & -> & Hc)]]].
  - split.
    + destruct s; discriminate.
    + intros (g & [= <-] & _ & Hg & _). congruence.
  - split.
    + destruct s; discriminate.
    + intros (g & Hg & _). discriminate.
  - split; [discriminate|]. intros (g & Hg & _). discriminate.
  - rewrite (IsReasonableFloat_finite s m e Hc). cbn [IEEE32.magnitude149].
    destruct Hc as (A & B & C).
    assert (0 < 2 ^ (e + 149)) by (apply Z.pow_pos_nonneg; lia).
    rewrite andb_true_iff, !Z.leb_le. split.
    + intros (L & U). eexists. split; [reflexivity|]. nia.
    + intros (g & [= <-] & _ & _ & LU). exact LU.
Qed.

(** ** The float candidate *)

Lemma classify_at_float (data : list byte) (size pos : Z) :
  reaches_float data size pos ->
  classify data size pos
  = or_else (try_float data size pos)
      (or_else (try_int32 data size pos)
         (or_else (try_int16 data size pos) (byte_fallback data pos))).
Proof.
  intros (A & B). unfold classify. rewrite A, B. reflexivity.
Qed.

(** None of the candidates after the float candidate prints a float. *)
Lemma integers_not_KFloat (data : list byte) (size pos : Z) (r : FieldRecord) (p : Z) :
  or_else (try_int32 data size pos)
    (or_else (try_int16 data size pos) (byte_fallback data pos)) = Ok (r, p) ->
  forall f, f_kind r <> KFloat f.
Proof.
  unfold or_else, try_int32, try_int16, byte_fallback, commit, reject.
  destruct (pos + 4 <=? size); destruct (pos + 2 <=? size);
    destruct (rd_DWORD data pos) as [u4|]; destruct (rd_WORD data pos) as [u2|];
    destruct (rd data pos) as [c|]; cbn [bind ret];
    repeat match goal with
           | |- context [if ?b then _ else _] => destruct b; cbn [bind ret]
           end;
    intros H f; try discriminate H; injection H as <- <-; discriminate.
Qed.

(** C7, as the code has it.  At an offset with at least 4 bytes left that
    reaches the float candidate (neither string candidate commits there),
    the record committed is a float exactly when the value of the 4 bytes
    is finite (so not NaN), of magnitude at most 1e10, not zero, and of
    magnitude within [[0.0001f, 100000]].  The pattern 0x3F800000 (1.0) is
    committed as a float; the pattern of 0.0 is rejected as a float and the
    integer candidates decide. *)
Theorem classify_float_band (data : list byte) (size pos : Z) :
  size <= Z.of_nat (List.length data) ->
  0 <= pos -> pos + 4 <= size ->
  reaches_float data size pos ->
  exists u,
    rd_DWORD data pos = Ok u /\ 0 <= u < 4294967296
    /\ (classify data size pos
        = Ok (mkField pos (KFloat (IEEE32.of_bits u)) 4, pos + 4)
        <-> plausible_float (IEEE32.of_bits u))
    /\ ((exists r p f, classify data size pos = Ok (r, p) /\ f_kind r = KFloat f)
        <-> plausible_float (IEEE32.of_bits u))
    /\ (u = 0x3F800000 ->
        classify data size pos
        = Ok (mkField pos (KFloat (S754_finite false 8388608 (-23))) 4, pos + 4))
    /\ (u = 0 ->
        try_float data size pos = Ok None
        /\ classify data size pos
           = or_else (try_int32 data size pos)
               (or_else (try_int16 data size pos) (byte_fallback data pos))).
Proof.
  intros Hsz H0 H4 Hreach.
  destruct (rd_DWORD_in data pos H0 ltac:(lia)) as (u & Ru & Hu).
  exists u. split; [assumption|]. split; [assumption|].
  rewrite (classify_at_float _ _ _ Hreach).
  assert (try_float data size pos
          = if IsReasonableFloat (IEEE32.of_bits u)
            then commit pos (KFloat (IEEE32.of_bits u)) (pos + 4)
            else reject) as Htf.
  { unfold try_float. destruct (pos + 4 <=? size) eqn:E; [|lia].
    rewrite Ru. reflexivity. }
  rewrite Htf. rewrite <- IsReasonableFloat_plausible.
  unfold commit, reject. replace (pos + 4 - pos) with 4 by lia.
  destruct (IsReasonableFloat (IEEE32.of_bits u)) eqn:R.
  - unfold or_else at 1 3 5 6. cbn [bind ret]. splits.
    + split; reflexivity.
    + split; [reflexivity|]. intros _. eexists _, _, _. split; reflexivity.
    + intros ->. reflexivity.
    + intros ->. discriminate R.
  - unfold or_else at 1 4 7 8. cbn [bind ret]. splits.
    + split; [|discriminate]. intros H. exfalso.
      eapply integers_not_KFloat; [exact H | reflexivity].
    + split; [|discriminate]. intros (r & p & f & H & K). exfalso.
      eapply integers_not_KFloat; eassumption.
    + intros ->. discriminate R.
    + intros _. split; reflexivity.
Qed.

Lemma classify_float_band_witness :
  exists u,
    rd_DWORD [x10; x00; x00; x80; x3f] 1 = Ok u /\ 0 <= u < 4294967296
    /\ (classify [x10; x00; x00; x80; x3f] 5 1
        = Ok (mkField 1 (KFloat (IEEE32.of_bits u)) 4, 1 + 4)
        <-> plausible_float (IEEE32.of_bits u))
    /\ ((exists r p f, classify [x10; x00; x00; x80; x3f] 5 1 = Ok (r, p)
                       /\ f_kind r = KFloat f)
        <-> plausible_float (IEEE32.of_bits u))
    /\ (u = 0x3F800000 ->
        classify [x10; x00; x00; x80; x3f] 5 1
        = Ok (mkField 1 (KFloat (S754_finite false 8388608 (-23))) 4, 1 + 4))
    /\ (u = 0 ->
        try_float [x10; x00; x00; x80; x3f] 5 1 = Ok None
        /\ classify [x10; x00; x00; x80; x3f] 5 1
           = or_else (try_int32 [x10; x00; x00; x80; x3f] 5 1)
               (or_else (try_int16 [x10; x00; x00; x80; x3f] 5 1)
                  (byte_fallback [x10; x00; x00; x80; x3f] 1))).
Proof.
  apply (classify_float_band [x10; x00; x00; x80; x3f] 5 1).
  - vm_compute. discriminate.
  - lia.
  - lia.
  - split; reflexivity.
Defined.

(** C7 as stated fails where a string candidate commits first: in
    [[h, 'A', 'B', 'C', 'D']] the 4 bytes at offset 1 are the pattern
    0x44434241, a float inside the band, and the record committed there is
    the string "ABCD". *)
Lemma float_in_band_is_string :
  rd_DWORD [x10; x41; x42; x43; x44] 1 = Ok 0x44434241
  /\ 1 + 4 <= 5
  /\ IsReasonableFloat (IEEE32.of_bits 0x44434241) = true
  /\ plausible_float (IEEE32.of_bits 0x44434241)
  /\ classify [x10; x41; x42; x43; x44] 5 1
     = Ok (mkField 1 (KString 5 "ABCD") 4, 5)
  /\ PrintContent [x10; x41; x42; x43; x44] 5
     = Ok [LNewline; LField (mkField 1 (KString 5 "ABCD") 4)].
Proof.
  splits; try reflexivity; try lia.
  apply IsReasonableFloat_plausible. reflexivity.
Qed.

(** ** The string candidates on a region of the buffer *)

Lemma printable_not_null (c : byte) : IsPrintable c = true -> (BYTE_val c =? 0) = false.
Proof.
  unfold IsPrintable. intros H. apply andb_prop in H. destruct H as [H _].
  apply Z.eqb_neq. lia.
Qed.

Lemma count_list_spec (l : list byte) : forall p q,
  fst (fst (count_list l p q)) = forallb printable_or_null l
  /\ (forallb printable_or_null l = true ->
      count_list l p q = (true, p + printable_count l, q + null_count l)
      /\ printable_count l + null_count l = Z.of_nat (List.length l)).
Proof.
  unfold printable_count, null_count.
  induction l as [|c l IH]; intros p q; cbn [count_list forallb filter List.length].
  - split; [reflexivity|]. intros _. cbn. rewrite !Z.add_0_r. auto.
  - unfold printable_or_null at 1 3.
    destruct (IsPrintable c) eqn:P.
    + rewrite (printable_not_null c P). cbn [orb andb List.length].
      destruct (IH (p + 1) q) as (A & B). split; [exact A|].
      intros H. destruct (B H) as (-> & E). split; [|lia].
        repeat (f_equal; try lia).
    + destruct (BYTE_val c =? 0) eqn:Z0; cbn [orb andb List.length].
      * destruct (IH p (q + 1)) as (A & B). split; [exact A|].
        intros H. destruct (B H) as (-> & E). split; [|lia].
        repeat (f_equal; try lia).
      * split; [reflexivity | discriminate].
Qed.

(** The test of [DetectFixedString] on the counts is the test on the region. *)
Lemma DetectFixedString_test (l : list byte) (sz : Z) :
  Z.of_nat (List.length l) = sz ->
  (let '(valid, printable, nulls) := count_list l 0 0 in
   valid && (PKT_DBG_MIN_STR_LEN <=? printable) && (0 <? nulls)
   && (printable + nulls =? sz))
  = padded_string l.
Proof.
  intros Hlen. unfold padded_string.
  destruct (count_list_spec l 0 0) as (A & B).
  destruct (forallb printable_or_null l) eqn:F.
  - destruct (B eq_refl) as (-> & E). cbn [andb].
    rewrite !Z.add_0_l. replace (_ + _ =? sz) with true
      by (symmetry; apply Z.eqb_eq; lia).
    apply andb_true_r.
  - destruct (count_list l 0 0) as [[v pr] nu]. cbn in A. subst v. reflexivity.
Qed.

Lemma region_length (data : list byte) (pos : Z) (n : nat) :
  0 <= pos -> pos + Z.of_nat n <= Z.of_nat (List.length data) ->
  List.length (region data pos n) = n.
Proof.
  intros H0 H1. unfold region. rewrite length_firstn, length_skipn. lia.
Qed.

Lemma region_firstn (data : list byte) (pos : Z) (k n : nat) :
  (k <= n)%nat -> firstn k (region data pos n) = region data pos k.
Proof.
  intros H. unfold region. rewrite firstn_firstn. f_equal. lia.
Qed.

Lemma region_cons (data : list byte) (pos : Z) (n : nat) (c : byte) :
  rd data pos = Ok c -> region data pos (S n) = c :: region data (pos + 1) n.
Proof.
  intros H. unfold region. rewrite (rd_skipn _ _ _ H). reflexivity.
Qed.

Lemma rd_region (data : list byte) (pos : Z) (n i : nat) (c : byte) :
  0 <= pos -> nth_error (region data pos n) i = Some c ->
  rd data (pos + Z.of_nat i) = Ok c.
Proof.
  unfold region, rd. intros Hp H. rewrite nth_error_firstn in H.
  destruct (Nat.ltb i n); [|discriminate]. rewrite nth_error_skipn in H.
  pose proof (Nat2Z.is_nonneg i) as Hi.
  destruct (pos + Z.of_nat i <? 0) eqn:E; [exfalso; lia|].
  replace (Z.to_nat (pos + Z.of_nat i)) with (Z.to_nat pos + i)%nat by lia.
  rewrite H. reflexivity.
Qed.

Lemma leading_printable_firstn (l : list byte) : forall k,
  leading_printable (firstn k l) = Nat.min k (leading_printable l).
Proof.
  induction l as [|c l IH]; intros [|k]; cbn; try reflexivity.
  destruct (IsPrintable c); [|reflexivity]. rewrite IH. reflexivity.
Qed.

Lemma leading_printable_null (l : list byte) :
  0 < null_count l -> (leading_printable l < List.length l)%nat.
Proof.
  unfold null_count. induction l as [|c l IH]; cbn; [lia|].
  destruct (IsPrintable c) eqn:P; [|lia].
  rewrite (printable_not_null c P). intros H. apply IH in H. lia.
Qed.

Lemma nth_leading_printable (l : list byte) :
  (leading_printable l < List.length l)%nat ->
  exists c, nth_error l (leading_printable l) = Some c /\ IsPrintable c = false.
Proof.
  induction l as [|c l IH]; cbn; [lia|].
  destruct (IsPrintable c) eqn:P.
  - intros H. apply IH. lia.
  - intros _. exists c. auto.
Qed.

Lemma forallb_nth_error (f : byte -> bool) (l : list byte) (i : nat) (c : byte) :
  forallb f l = true -> nth_error l i = Some c -> f c = true.
Proof.
  intros F N. rewrite forallb_forall in F. apply F.
  eapply nth_error_In. exact N.
Qed.

Lemma padded_string_parts (l : list byte) :
  padded_string l = true ->
  forallb printable_or_null l = true
  /\ PKT_DBG_MIN_STR_LEN <= printable_count l /\ 0 < null_count l.
Proof.
  unfold padded_string. rewrite !andb_true_iff, Z.leb_le, Z.ltb_lt. tauto.
Qed.

(** The run loop consumes the printable bytes the rest of the buffer starts
    with, up to [room] of them. *)
Lemma str_run_list (data : list byte) (size : Z) (room : nat) : forall pos s,
  0 <= pos <= size -> size <= Z.of_nat (List.length data) ->
  str_run room data size pos s
  = Ok (pos + Z.of_nat (Nat.min room
                          (leading_printable (region data pos (Z.to_nat (size - pos))))),
        s ++ firstn (Nat.min room
                       (leading_printable (region data pos (Z.to_nat (size - pos)))))
               (region data pos (Z.to_nat (size - pos)))).
Proof.
  induction room as [|room IH]; intros pos s Hpos Hsz; cbn [str_run Nat.min].
  - cbn [firstn]. rewrite Z.add_0_r, app_nil_r.
    destruct (pos <? size) eqn:E; [|reflexivity].
    next_rd c. destruct (_ && _); reflexivity.
  - destruct (pos <? size) eqn:E.
    + next_rd c.
      replace (Z.to_nat (size - pos)) with (S (Z.to_nat (size - (pos + 1)))) by lia.
      rewrite (region_cons _ _ _ _ Hrd). cbn [leading_printable].
      destruct (IsPrintable c) eqn:P.
      * rewrite (printable_not_null c P). cbn [negb andb].
        rewrite IH by lia. cbn [Nat.min firstn]. rewrite <- app_assoc.
        cbn [app]. f_equal. f_equal. lia.
      * rewrite andb_false_r. cbn [Nat.min firstn].
        rewrite Z.add_0_r, app_nil_r. reflexivity.
    + replace (Z.to_nat (size - pos)) with 0%nat by lia.
      unfold region. cbn [firstn leading_printable].
      rewrite Z.add_0_r, app_nil_r. reflexivity.
Qed.

(** The display loop of the fixed-size candidate collects the bytes before
    the first null. *)
Lemma fixed_prefix_list (data : list byte) (pos : Z) (n : nat) : forall i s,
  0 <= pos + i -> pos + i + Z.of_nat n <= Z.of_nat (List.length data) ->
  fixed_prefix n data pos i s = Ok (s ++ before_null (region data (pos + i) n)).
Proof.
  induction n as [|n IH]; intros i s H0 H1; cbn [fixed_prefix].
  - unfold region. cbn. rewrite app_nil_r. reflexivity.
  - next_rd c. rewrite (region_cons _ _ _ _ Hrd). cbn [before_null].
    destruct (BYTE_val c =? 0); [rewrite app_nil_r; reflexivity|].
    rewrite IH by lia. rewrite <- app_assoc.
    replace (pos + (i + 1)) with (pos + i + 1) by lia. reflexivity.
Qed.

(** [DetectFixedString] returns the first canonical size, among those that
    fit, whose region is a padded string. *)
Lemma DetectFixedString_from_cons (data : list byte) (base maxLen sz : Z)
      (rest : list Z) :
  0 <= base -> 0 <= sz ->
  (sz <= maxLen -> base + sz <= Z.of_nat (List.length data)) ->
  DetectFixedString_from (sz :: rest) data base maxLen
  = if maxLen <? sz then Ok 0
    else if padded_string (region data base (Z.to_nat sz)) then Ok sz
         else DetectFixedString_from rest data base maxLen.
Proof.
  intros H0 Hsz Hfit. cbn [DetectFixedString_from].
  destruct (maxLen <? sz) eqn:E; [reflexivity|].
  rewrite count_region_list by lia. cbn [bind].
  rewrite Z.add_0_r. fold (region data base (Z.to_nat sz)).
  rewrite <- (DetectFixedString_test (region data base (Z.to_nat sz)) sz)
    by (rewrite region_length; lia).
  destruct (count_list _ 0 0) as [[v pr] nu]. reflexivity.
Qed.

Section Padded16.

Variable data : list byte.
Variables size pos : Z.
Hypothesis size_le : size <= Z.of_nat (List.length data).
Hypothesis pos_ge : 0 <= pos.
Hypothesis fits : pos + 16 <= size.
Hypothesis padded : padded_string (region data pos 16) = true.

#[local] Abbreviation R := (region data pos 16).
#[local] Abbreviation L := (leading_printable (region data pos 16)).

Lemma padded16_run_short : (L < 16)%nat.
Proof.
  destruct (padded_string_parts _ padded) as (_ & _ & N).
  apply leading_printable_null in N.
  rewrite region_length in N by lia. exact N.
Qed.

Lemma padded16_rest :
  leading_printable (region data pos (Z.to_nat (size - pos))) = L
  /\ firstn L (region data pos (Z.to_nat (size - pos))) = firstn L R.
Proof.
  pose proof padded16_run_short as Hs.
  rewrite <- (region_firstn data pos 16 (Z.to_nat (size - pos))) in * by lia.
  rewrite leading_printable_firstn in *. split; [lia|].
  rewrite firstn_firstn. f_equal. lia.
Qed.

Lemma padded16_after_run :
  exists c0, rd data (pos + Z.of_nat L) = Ok c0 /\ (BYTE_val c0 =? 0) = true.
Proof.
  pose proof padded16_run_short as Hs.
  destruct (padded_string_parts _ padded) as (F & _ & _).
  destruct (nth_leading_printable R) as (c0 & N & P);
    [rewrite region_length by lia; exact Hs|].
  exists c0. split; [eapply rd_region; eassumption|].
  pose proof (forallb_nth_error _ _ _ _ F N) as Hc.
  unfold printable_or_null in Hc. rewrite P in Hc. exact Hc.
Qed.

Lemma padded16_head :
  exists c, rd data pos = Ok c /\ (IsPrintable c = false -> L = 0%nat).
Proof.
  destruct (rd_in data pos) as (c & Hc); [lia|].
  exists c. split; [exact Hc|]. intros P.
  rewrite (region_cons _ _ _ _ Hc). cbn. rewrite P. reflexivity.
Qed.

(** The null-terminated candidate on a padded 16-byte region: it commits
    exactly when the region starts with [PKT_DBG_MIN_STR_LEN] printable
    bytes or more, and then takes them and the null after them. *)
Lemma try_string_padded16 :
  try_string data size pos
  = if (3 <=? L)%nat
    then commit pos (KString (Z.of_nat L + 1) (string_of_list_byte (firstn L R)))
                (pos + Z.of_nat L + 1)
    else reject.
Proof.
  pose proof padded16_run_short as Hs.
  destruct padded16_rest as (Hl & Hf).
  destruct padded16_after_run as (c0 & R0 & Z0).
  destruct padded16_head as (c & Rc & Hc).
  unfold try_string. rewrite Rc. cbn [bind].
  destruct (IsPrintable c) eqn:P.
  - rewrite str_run_list by lia. cbn [bind app]. rewrite Hl.
    replace (Nat.min 64 L) with L by lia. rewrite Hf.
    rewrite length_firstn, region_length by lia.
    replace (Nat.min L 16) with L by lia.
    unfold PKT_DBG_MIN_STR_LEN, at_end_or_null, at_null.
    destruct (Nat.leb_spec 3 L) as [H3|H3].
    + replace (3 <=? Z.of_nat L) with true by (symmetry; apply Z.leb_le; lia).
      replace (size <=? pos + Z.of_nat L) with false
        by (symmetry; apply Z.leb_gt; lia).
      replace (pos + Z.of_nat L <? size) with true
        by (symmetry; apply Z.ltb_lt; lia).
      rewrite R0. cbn [bind ret]. rewrite Z0. reflexivity.
    + replace (3 <=? Z.of_nat L) with false by (symmetry; apply Z.leb_gt; lia).
      reflexivity.
  - rewrite (Hc eq_refl). reflexivity.
Qed.

(** The fixed-size candidate on a padded 16-byte region: size 13 when the
    first 13 bytes are a padded string themselves, size 16 otherwise. *)
Lemma try_fixed_padded16 :
  try_fixed data size pos
  = if padded_string (firstn 13 R)
    then commit pos (KFixedString 13 (string_of_list_byte (before_null (firstn 13 R))))
                (pos + 13)
    else commit pos (KFixedString 16 (string_of_list_byte (before_null R)))
                (pos + 16).
Proof.
  unfold try_fixed, DetectFixedString, sizes.
  rewrite DetectFixedString_from_cons by lia.
  replace (size - pos <? 13) with false by (symmetry; apply Z.ltb_ge; lia).
  change (Z.to_nat 13) with 13%nat.
  rewrite <- (region_firstn data pos 13 16) by lia.
  destruct (padded_string (firstn 13 R)) eqn:P13.
  - cbn [bind]. change (0 <? 13) with true. cbv iota.
    change (Z.to_nat 13) with 13%nat.
    rewrite fixed_prefix_list by lia. cbn [bind app].
    rewrite Z.add_0_r. rewrite <- (region_firstn data pos 13 16) by lia.
    reflexivity.
  - rewrite DetectFixedString_from_cons by lia.
    replace (size - pos <? 16) with false by (symmetry; apply Z.ltb_ge; lia).
    change (Z.to_nat 16) with 16%nat. rewrite padded.
    cbn [bind]. change (0 <? 16) with true. cbv iota.
    change (Z.to_nat 16) with 16%nat.
    rewrite fixed_prefix_list by lia. cbn [bind app].
    rewrite Z.add_0_r. reflexivity.
Qed.

End Padded16.

(** C4, as the code has it.  A 16-byte region at the current offset whose
    bytes are all printable or null, with at least [PKT_DBG_MIN_STR_LEN]
    printable bytes and at least one null, is committed as one fixed string
    of exactly 16 bytes if and only if it starts with fewer than
    [PKT_DBG_MIN_STR_LEN] printable bytes and its first 13 bytes are not
    such a region themselves.  When it starts with [PKT_DBG_MIN_STR_LEN]
    printable bytes or more, the null-terminated candidate, tried first,
    commits them; otherwise, when the first 13 bytes qualify, the smaller
    size 13 is committed. *)
Theorem classify_padded16 (data : list byte) (size pos : Z) :
  size <= Z.of_nat (List.length data) ->
  0 <= pos -> pos + 16 <= size ->
  padded_string (region data pos 16) = true ->
  let R := region data pos 16 in
  let L := leading_printable R in
  ((exists s, classify data size pos
              = Ok (mkField pos (KFixedString 16 s) 16, pos + 16))
   <-> (L < 3)%nat /\ padded_string (firstn 13 R) = false)
  /\ ((L < 3)%nat -> padded_string (firstn 13 R) = false ->
      classify data size pos
      = Ok (mkField pos (KFixedString 16 (string_of_list_byte (before_null R))) 16,
            pos + 16))
  /\ ((3 <= L)%nat ->
      classify data size pos
      = Ok (mkField pos (KString (Z.of_nat L + 1) (string_of_list_byte (firstn L R)))
                    (Z.of_nat L + 1),
            pos + Z.of_nat L + 1))
  /\ ((L < 3)%nat -> padded_string (firstn 13 R) = true ->
      classify data size pos
      = Ok (mkField pos (KFixedString 13
                           (string_of_list_byte (before_null (firstn 13 R)))) 13,
            pos + 13)).
Proof.
  intros Hsz H0 H16 HR R L.
  assert ((3 <= L)%nat ->
          classify data size pos
          = Ok (mkField pos (KString (Z.of_nat L + 1) (string_of_list_byte (firstn L R)))
                        (Z.of_nat L + 1),
                pos + Z.of_nat L + 1)) as Hstr.
  { intros H3. unfold classify.
    rewrite (try_string_padded16 data size pos Hsz H0 H16 HR).
    fold R L. replace (3 <=? L)%nat with true by (symmetry; apply Nat.leb_le; lia).
    unfold commit, or_else at 1. cbn [bind ret].
    replace (pos + Z.of_nat L + 1 - pos) with (Z.of_nat L + 1) by lia.
    reflexivity. }
  assert ((L < 3)%nat ->
          classify data size pos
          = if padded_string (firstn 13 R)
            then Ok (mkField pos (KFixedString 13
                       (string_of_list_byte (before_null (firstn 13 R)))) 13,
                     pos + 13)
            else Ok (mkField pos (KFixedString 16
                       (string_of_list_byte (before_null R))) 16,
                     pos + 16)) as Hfix.
  { intros H3. unfold classify.
    rewrite (try_string_padded16 data size pos Hsz H0 H16 HR).
    fold R L. replace (3 <=? L)%nat with false by (symmetry; apply Nat.leb_gt; lia).
    unfold reject, or_else at 1. cbn [bind ret].
    rewrite (try_fixed_padded16 data size pos Hsz H0 H16 HR). fold R.
    unfold commit. replace (pos + 13 - pos) with 13 by lia.
    replace (pos + 16 - pos) with 16 by lia.
    destruct (padded_string (firstn 13 R)); reflexivity. }
  splits.
  - split.
    + intros (s & Hc). destruct (Nat.leb_spec 3 L) as [H3|H3].
      * rewrite (Hstr H3) in Hc. discriminate Hc.
      * split; [exact H3|]. rewrite (Hfix H3) in Hc.
        destruct (padded_string (firstn 13 R)); [|reflexivity].
        injection Hc as Hc _. discriminate Hc.
    + intros (H3 & P13). rewrite (Hfix H3), P13. eexists. reflexivity.
  - intros H3 P13. rewrite (Hfix H3), P13. reflexivity.
  - exact Hstr.
  - intros H3 P13. rewrite (Hfix H3), P13. reflexivity.
Qed.

Lemma classify_padded16_witness :
  classify (x10 :: x41 :: x42 :: repeat x00 11 ++ [x43; x44; x45]) 17 1
  = Ok (mkField 1 (KFixedString 16 "AB") 16, 17).
Proof.
  apply (classify_padded16
           (x10 :: x41 :: x42 :: repeat x00 11 ++ [x43; x44; x45]) 17 1).
  - vm_compute. discriminate.
  - lia.
  - lia.
  - reflexivity.
  - vm_compute. lia.
  - reflexivity.
Defined.

(** C4 as stated fails on both counts.  "ABC" followed by 13 nulls is a
    padded 16-byte region, and the null-terminated candidate commits its
    first 4 bytes.  A null, "ABC" and 12 nulls is one too, and the
    fixed-size candidate commits it with size 13. *)
Lemma padded16_not_fixed16 :
  padded_string (region (x10 :: x41 :: x42 :: x43 :: repeat x00 13) 1 16) = true
  /\ classify (x10 :: x41 :: x42 :: x43 :: repeat x00 13) 17 1
     = Ok (mkField 1 (KString 4 "ABC") 4, 5)
  /\ padded_string (region (x10 :: x00 :: x41 :: x42 :: x43 :: repeat x00 12) 1 16)
     = true
  /\ classify (x10 :: x00 :: x41 :: x42 :: x43 :: repeat x00 12) 17 1
     = Ok (mkField 1 (KFixedString 13 "") 13, 14).
Proof.
  splits; vm_compute; reflexivity.
Qed.

(** * Further properties of the session *)

(** X1.  Once [Initialize] has opened the log, a further [Initialize] does
    nothing: on a logger that was inactive the two calls together write one
    session header, that of the first call. *)
Theorem Initialize_twice (env1 env2 : Env) (w : World) :
  fsopen_ok env1 = true ->
  Initialize env2 (Initialize env1 w) = Initialize env1 w
  /\ (m_bInit (inst w) = false ->
      log (Initialize env2 (Initialize env1 w))
      = log w ++ [LNewline; LRule; LSessionTitle (localtime env1);
                  LLogFile PKT_DBG_LOG_FILE; LRule; LColumns; LDashes]).
Proof.
  intros Ho.
  assert (m_bInit (inst (Initialize env1 w)) = true) as Hi.
  { unfold Initialize. destruct (m_bInit (inst w)) eqn:E; [exact E|].
    rewrite Ho. reflexivity. }
  assert (Initialize env2 (Initialize env1 w) = Initialize env1 w) as Heq.
  { unfold Initialize at 1. rewrite Hi. reflexivity. }
  split; [exact Heq|].
  intros Hn. rewrite Heq. unfold Initialize. rewrite Hn, Ho. reflexivity.
Qed.

Lemma Initialize_twice_witness :
  Initialize (mkEnv false 7 (mkTime 2024 1 1 0 0 1 0))
    (Initialize (mkEnv true 5 (mkTime 2024 1 1 0 0 0 0)) process_start)
  = Initialize (mkEnv true 5 (mkTime 2024 1 1 0 0 0 0)) process_start.
Proof.
  apply (Initialize_twice (mkEnv true 5 (mkTime 2024 1 1 0 0 0 0))
           (mkEnv false 7 (mkTime 2024 1 1 0 0 1 0)) process_start).
  reflexivity.
Defined.

(** X2.  [Shutdown] is idempotent: the second of two calls in a row
    changes nothing, so an active session gets one footer. *)
Theorem Shutdown_twice (w : World) :
  Shutdown (Shutdown w) = Shutdown w
  /\ (m_bInit (inst w) = true ->
      log (Shutdown (Shutdown w))
      = log w ++ [LRule; LSessionEnd (m_nSend (inst w)) (m_nRecv (inst w));
                  LRuleEnd]).
Proof.
  assert (Shutdown (Shutdown w) = Shutdown w) as Heq.
  { unfold Shutdown. destruct (m_bInit (inst w)) eqn:E; cbn; [reflexivity|].
    rewrite E. reflexivity. }
  split; [exact Heq|]. intros Hi. rewrite Heq. unfold Shutdown. rewrite Hi.
  reflexivity.
Qed.

(** X3.  When [_fsopen] fails, [Initialize] writes nothing and leaves the
    logger inactive: every [LogSend], [LogRecv] and [Shutdown] that follows
    leaves the logger and the log as they are. *)
Theorem Initialize_open_failure (env : Env) (w : World) :
  m_bInit (inst w) = false -> fsopen_ok env = false ->
  log (Initialize env w) = log w
  /\ m_bInit (inst (Initialize env w)) = false
  /\ m_pFile (inst (Initialize env w)) = false
  /\ m_nSend (inst (Initialize env w)) = m_nSend (inst w)
  /\ m_nRecv (inst (Initialize env w)) = m_nRecv (inst w)
  /\ Shutdown (Initialize env w) = Initialize env w
  /\ forall env' data size,
       LogSend env' data size (Initialize env w) = Ok (Initialize env w)
       /\ LogRecv env' data size (Initialize env w) = Ok (Initialize env w).
Proof.
  intros Hi Ho.
  assert (m_bInit (inst (Initialize env w)) = false) as Hn
    by (unfold Initialize; rewrite Hi, Ho; reflexivity).
  splits; try (unfold Initialize; rewrite Hi, Ho; reflexivity); try exact Hn.
  intros env' data size. now apply LogSend_inactive.
Qed.

Lemma Initialize_open_failure_witness :
  log (Initialize (mkEnv false 5 (mkTime 2024 1 1 0 0 0 0)) process_start) = []
  /\ LogSend (mkEnv true 9 (mkTime 2024 1 1 0 0 2 0)) (Some [x10; x41]) 2
       (Initialize (mkEnv false 5 (mkTime 2024 1 1 0 0 0 0)) process_start)
     = Ok (Initialize (mkEnv false 5 (mkTime 2024 1 1 0 0 0 0)) process_start).
Proof.
  destruct (Initialize_open_failure (mkEnv false 5 (mkTime 2024 1 1 0 0 0 0))
              process_start eq_refl eq_refl) as (A & _ & _ & _ & _ & _ & B).
  split; [exact A|]. apply B.
Defined.

(** X6.  After [Shutdown] the logger is inactive, whatever it was before:
    [LogSend] and [LogRecv] then change neither the counters nor the log. *)
Theorem Log_after_Shutdown (env : Env) (data : option (list byte)) (size : Z)
        (w : World) :
  LogSend env data size (Shutdown w) = Ok (Shutdown w)
  /\ LogRecv env data size (Shutdown w) = Ok (Shutdown w).
Proof.
  apply LogSend_inactive. unfold Shutdown.
  destruct (m_bInit (inst w)) eqn:E; cbn; auto.
Qed.

Lemma call_file_flag (c : Call) (w w' : World) :
  call c w = Ok w' ->
  m_pFile (inst w) = m_bInit (inst w) ->
  m_pFile (inst w') = m_bInit (inst w').
Proof.
  destruct c as [env| |env data size|env data size]; cbn [call ret].
  - intros [= <-] H. unfold Initialize.
    destruct (m_bInit (inst w)) eqn:Hi; [congruence|].
    destruct (fsopen_ok env); cbn; auto.
  - intros [= <-] H. unfold Shutdown.
    destruct (m_bInit (inst w)) eqn:Hi; cbn; auto. congruence.
  - unfold LogSend. destruct (m_bInit (inst w)) eqn:Hi.
    + intros H E. apply Log_frame in H. cbn in H.
      destruct H as (A & B & _). congruence.
    + intros [= <-] E. congruence.
  - unfold LogRecv. destruct (m_bInit (inst w)) eqn:Hi.
    + intros H E. apply Log_frame in H. cbn in H.
      destruct H as (A & B & _). congruence.
    + intros [= <-] E. congruence.
Qed.

(** X4.  In every run of the public interface from the state the
    constructor leaves, the file handle is non-null exactly when the logger
    is initialized: the test of [m_pFile] in [Log] never decides. *)
Theorem file_open_iff_initialized (cs : list Call) (w : World) :
  run cs process_start = Ok w -> m_pFile (inst w) = m_bInit (inst w).
Proof.
  assert (forall cs w0 w1, run cs w0 = Ok w1 ->
            m_pFile (inst w0) = m_bInit (inst w0) ->
            m_pFile (inst w1) = m_bInit (inst w1)) as G.
  { clear. induction cs as [|c cs IH]; intros w0 w1; cbn [run ret].
    - intros [= <-]. auto.
    - destruct (call c w0) as [w'|] eqn:Hc; [|discriminate]. cbn [bind].
      intros Hr H0. eapply IH; [exact Hr|]. eapply call_file_flag; eassumption. }
  intros H. eapply G; [exact H | reflexivity].
Qed.

Lemma file_open_iff_initialized_witness :
  m_pFile (inst (Initialize (mkEnv true 5 (mkTime 2024 1 1 0 0 0 0)) process_start))
  = m_bInit (inst (Initialize (mkEnv true 5 (mkTime 2024 1 1 0 0 0 0)) process_start)).
Proof.
  apply (file_open_iff_initialized
           [CInitialize (mkEnv true 5 (mkTime 2024 1 1 0 0 0 0))]).
  reflexivity.
Defined.

Lemma call_appends (c : Call) (w w' : World) :
  call c w = Ok w' -> exists tail, log w' = log w ++ tail.
Proof.
  assert (forall env dir data size v v',
            Log env dir data size v = Ok v' -> exists tail, log v' = log v ++ tail)
    as HL.
  { intros env dir data size v v'. unfold Log.
    destruct data as [p|]; [|intros [= <-]; exists []; now rewrite app_nil_r].
    destruct (_ || _); [intros [= <-]; exists []; now rewrite app_nil_r|].
    destruct (rd p 0); [|discriminate]. cbn [bind].
    destruct (PrintContent p size) as [content|]; [|discriminate]. cbn [bind ret].
    intros [= <-]. cbn. rewrite <- app_assoc. eauto. }
  destruct c as [env| |env data size|env data size]; cbn [call ret].
  - intros [= <-]. unfold Initialize.
    destruct (m_bInit (inst w)); [exists []; now rewrite app_nil_r|].
    destruct (fsopen_ok env); cbn; [eauto|].
    exists []; now rewrite app_nil_r.
  - intros [= <-]. unfold Shutdown.
    destruct (m_bInit (inst w)); cbn; [eauto|]. exists []; now rewrite app_nil_r.
  - unfold LogSend. destruct (m_bInit (inst w)).
    + intros H. apply HL in H. exact H.
    + intros [= <-]. exists []; now rewrite app_nil_r.
  - unfold LogRecv. destruct (m_bInit (inst w)).
    + intros H. apply HL in H. exact H.
    + intros [= <-]. exists []; now rewrite app_nil_r.
Qed.

(** X5.  The log is append-only: whatever the calls of a run, what was in
    the log before it is a prefix of what is in it afterwards. *)
Theorem log_append_only (cs : list Call) (w w' : World) :
  run cs w = Ok w' -> exists tail, log w' = log w ++ tail.
Proof.
  revert w. induction cs as [|c cs IH]; intros w; cbn [run ret].
  - intros [= <-]. exists []. now rewrite app_nil_r.
  - destruct (call c w) as [w1|] eqn:Hc; [|discriminate]. cbn [bind].
    intros Hr. destruct (call_appends _ _ _ Hc) as (t1 & E1).
    destruct (IH _ Hr) as (t2 & E2). exists (t1 ++ t2).
    rewrite E2, E1, app_assoc. reflexivity.
Qed.

Lemma log_append_only_witness :
  exists tail,
    log (Shutdown (Initialize (mkEnv true 5 (mkTime 2024 1 1 0 0 0 0)) process_start))
    = log process_start ++ tail.
Proof.
  apply (log_append_only
           [CInitialize (mkEnv true 5 (mkTime 2024 1 1 0 0 0 0)); CShutdown]
           process_start).
  reflexivity.
Defined.

(** X7.  On an initialized logger, [LogSend] of a buffer of at least
    [size >= 1] bytes never faults: it counts the packet, sets the time
    reference to the tick, and appends one header line, carrying the new
    total of both counters, the elapsed ticks modulo [2^32] and the first
    byte of the buffer, followed by what [PrintContent] prints. *)
Theorem LogSend_valid (env : Env) (p : list byte) (size : Z) (w : World) :
  m_bInit (inst w) = true -> m_pFile (inst w) = true ->
  1 <= size <= Z.of_nat (List.length p) ->
  exists h content,
    rd p 0 = Ok h
    /\ PrintContent p size = Ok content
    /\ content <> []
    /\ LogSend env (Some p) size w
       = Ok (mkWorld
               (mkSession true true (tick env)
                          (DWORD_wrap (m_nSend (inst w) + 1)) (m_nRecv (inst w))
                          (m_szLogPath (inst w)))
               (log w
                ++ [LPacket SEND
                      (DWORD_wrap (DWORD_wrap (m_nSend (inst w) + 1)
                                   + m_nRecv (inst w)))
                      (localtime env)
                      (DWORD_wrap (tick env - m_dwLastTime (inst w)))
                      (BYTE_val h) size]
                ++ content)).
Proof.
  intros Hi Hf Hs.
  destruct (rd_in p 0) as (h & Hh); [lia|].
  destruct (PrintContent_unfold p size) as (start & rs & stop & _ & _ & H); [lia|].
  assert (exists content, PrintContent p size = Ok content /\ content <> [])
    as (content & Hc & Hne).
  { destruct H as [H|[H|H]].
    - destruct H as (_ & H & _). eexists; split; [exact H | discriminate].
    - destruct H as (_ & H & _). eexists; split; [exact H | discriminate].
    - destruct H as (_ & _ & _ & _ & _ & _ & _ & H).
      eexists; split; [exact H | discriminate]. }
  exists h, content. splits; auto.
  unfold LogSend. rewrite Hi. unfold Log. cbn [inst m_pFile].
  rewrite Hf. replace (size <? 1) with false by (symmetry; apply Z.ltb_ge; lia).
  cbn [orb negb]. rewrite Hh, Hc. cbn [bind ret]. unfold fprintf. cbn.
  rewrite <- app_assoc. reflexivity.
Qed.

Lemma LogSend_valid_witness :
  exists h content,
    rd [x10; x41; x42; x43; x00] 0 = Ok h
    /\ PrintContent [x10; x41; x42; x43; x00] 5 = Ok content
    /\ content <> []
    /\ LogSend (mkEnv true 9 (mkTime 2024 1 1 0 0 2 0))
         (Some [x10; x41; x42; x43; x00]) 5
         (Initialize (mkEnv true 5 (mkTime 2024 1 1 0 0 0 0)) process_start)
       = Ok (mkWorld
               (mkSession true true 9 (DWORD_wrap (0 + 1)) 0 PKT_DBG_LOG_FILE)
               (log (Initialize (mkEnv true 5 (mkTime 2024 1 1 0 0 0 0)) process_start)
                ++ [LPacket SEND (DWORD_wrap (DWORD_wrap (0 + 1) + 0))
                      (mkTime 2024 1 1 0 0 2 0) (DWORD_wrap (9 - 5))
                      (BYTE_val h) 5]
                ++ content)).
Proof.
  apply (LogSend_valid (mkEnv true 9 (mkTime 2024 1 1 0 0 2 0))
           [x10; x41; x42; x43; x00] 5
           (Initialize (mkEnv true 5 (mkTime 2024 1 1 0 0 0 0)) process_start)).
  - reflexivity.
  - reflexivity.
  - vm_compute. split; discriminate.
Defined.

(** * Further properties of the disassembler *)

(** ** What each candidate commits *)

Lemma leading_printable_le (l : list byte) :
  (leading_printable l <= List.length l)%nat.
Proof.
  induction l as [|c l IH]; cbn; [lia|]. destruct (IsPrintable c); lia.
Qed.

Lemma leading_printable_forallb (l : list byte) : forall k,
  (k <= leading_printable l)%nat -> forallb IsPrintable (firstn k l) = true.
Proof.
  induction l as [|c l IH]; intros [|k]; cbn; try reflexivity; try lia.
  destruct (IsPrintable c) eqn:P; [|lia]. intros H. cbn. apply IH. lia.
Qed.

Lemma BYTE_val_0 (c : byte) : BYTE_val c = 0 -> c = x00.
Proof.
  intros H. destruct c; try reflexivity; vm_compute in H; discriminate.
Qed.

Lemma try_string_shape (data : list byte) (size pos : Z) (r : FieldRecord) (p : Z) :
  size <= Z.of_nat (List.length data) ->
  try_string data size pos = Ok (Some (r, p)) ->
  f_off r = pos /\ field_shape data size r.
Proof.
  intros Hsz H. unfold try_string in H.
  destruct (rd data pos) as [c|] eqn:Rc; [|discriminate]. cbn [bind] in H.
  pose proof (rd_Ok_in _ _ _ Rc) as Hpos.
  destruct (IsPrintable c); [|discriminate].
  destruct (pos <? size) eqn:Hlt.
  2:{ assert (str_run 64 data size pos [] = Ok (pos, [])) as E
        by (cbn [str_run]; rewrite Hlt; reflexivity).
      rewrite E in H. cbn in H. discriminate. }
  rewrite str_run_list in H by lia. cbn [bind app] in H.
  set (rest := region data pos (Z.to_nat (size - pos))) in *.
  set (n := Nat.min 64 (leading_printable rest)) in *.
  assert (List.length rest = Z.to_nat (size - pos)) as Hlr
    by (unfold rest; rewrite region_length; lia).
  pose proof (leading_printable_le rest) as Hle.
  assert (firstn n rest = region data pos n) as Hfn
    by (unfold rest; apply region_firstn; lia).
  assert (n <= 64 /\ n <= leading_printable rest)%nat as (Hn64 & Hnl)
    by (unfold n; lia).
  assert (forallb IsPrintable (firstn n rest) = true) as Hpr0
    by (apply leading_printable_forallb; lia).
  rewrite Hfn in H, Hpr0. clearbody n. clearbody rest.
  assert (List.length (region data pos n) = n) as Hln
    by (rewrite region_length; lia).
  rewrite Hln in H. unfold PKT_DBG_MIN_STR_LEN in H.
  destruct (3 <=? Z.of_nat n) eqn:L3; [|discriminate].
  unfold at_end_or_null, at_null in H.
  pose proof Hpr0 as Hpr.
  destruct (size <=? pos + Z.of_nat n) eqn:E1; cbn [bind ret] in H.
  - destruct (pos + Z.of_nat n <? size) eqn:E2; [lia|]. cbn [bind ret] in H.
    unfold commit, ret in H. injection H as <- <-.
    split; [reflexivity|]. unfold field_shape. cbn [f_off f_kind f_width].
    exists n. apply Z.leb_le in L3. splits; auto; try lia.
  - destruct (rd data (pos + Z.of_nat n)) as [c1|] eqn:R1; [|discriminate].
    cbn [bind ret] in H.
    destruct (BYTE_val c1 =? 0) eqn:Z1; [|discriminate].
    destruct (pos + Z.of_nat n <? size) eqn:E2; [|lia]. cbn [bind ret] in H.
    unfold commit, ret in H. injection H as <- <-.
    split; [reflexivity|]. unfold field_shape. cbn [f_off f_kind f_width].
    exists n. apply Z.leb_le in L3. splits; auto; try lia. left. split; [lia|].
    rewrite R1. f_equal. apply BYTE_val_0. lia.
Qed.

(** [DetectFixedString_from] on an ascending table: the first size that
    fits and whose region is a padded string, or 0 when there is none. *)
Lemma DetectFixedString_from_first (data : list byte) (base maxLen : Z)
      (szs : list Z) :
  0 <= base -> base + maxLen <= Z.of_nat (List.length data) ->
  StronglySorted Z.lt szs -> Forall (fun sz => 0 < sz) szs ->
  exists r,
    DetectFixedString_from szs data base maxLen = Ok r
    /\ ((r = 0 /\ forall sz, In sz szs -> sz <= maxLen ->
                   padded_string (region data base (Z.to_nat sz)) = false)
        \/ (In r szs /\ r <= maxLen
            /\ padded_string (region data base (Z.to_nat r)) = true
            /\ forall sz, In sz szs -> sz < r ->
                 padded_string (region data base (Z.to_nat sz)) = false)).
Proof.
  intros H0 H1 Hs Hp. induction Hs as [|sz rest Hs IH Hlt].
  - exists 0. split; [reflexivity|]. left. split; [reflexivity|]. intros sz [].
  - inversion Hp as [|? ? Hsz Hp']; subst.
    rewrite DetectFixedString_from_cons by lia.
    rewrite Forall_forall in Hlt.
    destruct (maxLen <? sz) eqn:E.
    + exists 0. split; [reflexivity|]. left. split; [reflexivity|].
      intros sz' [<-|Hin] Hle; [lia|]. apply Hlt in Hin. lia.
    + destruct (padded_string (region data base (Z.to_nat sz))) eqn:P.
      * exists sz. split; [reflexivity|]. right. splits; auto.
        -- now left.
        -- lia.
        -- intros sz' [<-|Hin] Hl; [lia|]. apply Hlt in Hin. lia.
      * destruct (IH Hp') as (r & -> & [(-> & Hn)|(Hin & Hle & Hr & Hn)]).
        -- exists 0. split; [reflexivity|]. left. split; [reflexivity|].
           intros sz' [<-|Hin] Hle; auto.
        -- exists r. split; [reflexivity|]. right. splits; auto.
           ++ now right.
           ++ intros sz' [<-|Hin'] Hl; auto.
Qed.

Lemma sizes_ascending : StronglySorted Z.lt sizes.
Proof.
  unfold sizes. repeat (constructor; [|repeat (constructor; try lia)]).
  constructor.
Qed.

Lemma try_fixed_shape (data : list byte) (size pos : Z) (r : FieldRecord) (p : Z) :
  size <= Z.of_nat (List.length data) -> 0 <= pos <= size ->
  try_fixed data size pos = Ok (Some (r, p)) ->
  f_off r = pos /\ field_shape data size r.
Proof.
  intros Hsz Hpos H. unfold try_fixed, DetectFixedString in H.
  destruct (DetectFixedString_from_first data pos (size - pos) sizes)
    as (n & Hn & Hcase);
    [lia | lia | apply sizes_ascending | apply sizes_positive |].
  rewrite Hn in H. cbn [bind] in H.
  destruct (0 <? n) eqn:E; [|discriminate].
  destruct Hcase as [(-> & _)|(Hin & Hle & Hp & _)]; [discriminate|].
  rewrite fixed_prefix_list in H by lia. cbn [bind app] in H.
  rewrite Z.add_0_r in H. unfold commit, ret in H. injection H as <- <-.
  split; [reflexivity|]. unfold field_shape. cbn. splits; auto. lia.
Qed.

Lemma try_float_shape (data : list byte) (size pos : Z) (r : FieldRecord) (p : Z) :
  try_float data size pos = Ok (Some (r, p)) ->
  f_off r = pos /\ field_shape data size r.
Proof.
  unfold try_float. destruct (pos + 4 <=? size); [|discriminate].
  destruct (rd_DWORD data pos) as [u|] eqn:R; [|discriminate]. cbn [bind].
  destruct (IsReasonableFloat _) eqn:F; [|discriminate].
  unfold commit, ret. intros [= <- <-]. split; [reflexivity|].
  unfold field_shape. cbn. split; [lia|]. exists u. auto.
Qed.

Lemma Ok_inj {A : Type} (a b : A) : Ok a = Ok b -> a = b.
Proof. intros H. injection H as H. exact H. Qed.

Lemma rd_WORD_range (data : list byte) (i u : Z) :
  rd_WORD data i = Ok u -> 0 <= u < 65536.
Proof.
  unfold rd_WORD. destruct (rd data i) as [b0|]; [|discriminate].
  destruct (rd data (i + 1)) as [b1|]; [|discriminate]. cbn [bind ret].
  intros H. apply Ok_inj in H. subst u.
  pose proof (BYTE_val_range b0). pose proof (BYTE_val_range b1). lia.
Qed.

Lemma rd_DWORD_range (data : list byte) (i u : Z) :
  rd_DWORD data i = Ok u -> 0 <= u < 4294967296.
Proof.
  unfold rd_DWORD. destruct (rd data i) as [b0|]; [|discriminate].
  destruct (rd data (i + 1)) as [b1|]; [|discriminate].
  destruct (rd data (i + 2)) as [b2|]; [|discriminate].
  destruct (rd data (i + 3)) as [b3|]; [|discriminate]. cbn [bind ret].
  intros H. apply Ok_inj in H. subst u.
  pose proof (BYTE_val_range b0). pose proof (BYTE_val_range b1).
  pose proof (BYTE_val_range b2). pose proof (BYTE_val_range b3). lia.
Qed.

Lemma try_int32_shape (data : list byte) (size pos : Z) (r : FieldRecord) (p : Z) :
  try_int32 data size pos = Ok (Some (r, p)) ->
  f_off r = pos /\ field_shape data size r.
Proof.
  unfold try_int32. destruct (pos + 4 <=? size); [|discriminate].
  destruct (rd_DWORD data pos) as [u|] eqn:R; [|discriminate]. cbn [bind].
  pose proof (rd_DWORD_range _ _ _ R) as Hu.
  unfold as_long, IsReasonableDWORD, commit, ret, reject.
  destruct (u <? 2147483648) eqn:E.
  - replace ((u <? 0) && (-100000000 <? u)) with false
      by (symmetry; apply andb_false_iff; left; lia).
    destruct (_ || _) eqn:O; [discriminate|].
    destruct (0xF0000000 <? u) eqn:F; [discriminate|].
    apply orb_false_iff in O. intros [= <- <-]. split; [reflexivity|].
    unfold field_shape. cbn. splits; auto; lia.
  - destruct (_ && _) eqn:A.
    + apply andb_prop in A. intros [= <- <-]. split; [reflexivity|].
      unfold field_shape. cbn. splits; auto; lia.
    + destruct (_ || _) eqn:O; [discriminate|].
      destruct (0xF0000000 <? u) eqn:F; [discriminate|].
      intros [= <- <-]. split; [reflexivity|].
      unfold field_shape. cbn. splits; auto; lia.
Qed.

Lemma try_int16_shape (data : list byte) (size pos : Z) (r : FieldRecord) (p : Z) :
  try_int16 data size pos = Ok (Some (r, p)) ->
  f_off r = pos /\ field_shape data size r.
Proof.
  unfold try_int16. destruct (pos + 2 <=? size); [|discriminate].
  destruct (rd_WORD data pos) as [u|] eqn:R; [|discriminate]. cbn [bind].
  pose proof (rd_WORD_range _ _ _ R) as Hu.
  unfold as_short, commit, ret, reject.
  destruct (u <? 32768) eqn:E.
  - replace ((u <? 0) && (-32000 <? u)) with false
      by (symmetry; apply andb_false_iff; left; lia).
    destruct (_ && _) eqn:A; [|discriminate].
    apply andb_prop in A. intros [= <- <-]. split; [reflexivity|].
    unfold field_shape. cbn. splits; auto; lia.
  - destruct ((u - 65536 <? 0) && _) eqn:A.
    + apply andb_prop in A. intros [= <- <-]. split; [reflexivity|].
      unfold field_shape. cbn. splits; auto; lia.
    + apply andb_false_iff in A.
      destruct (_ && _) eqn:B; [|discriminate].
      apply andb_prop in B. intros [= <- <-]. split; [reflexivity|].
      unfold field_shape. cbn. splits; auto; lia.
Qed.

Lemma byte_fallback_shape (data : list byte) (size pos : Z) (r : FieldRecord) (p : Z) :
  byte_fallback data pos = Ok (r, p) ->
  f_off r = pos /\ field_shape data size r.
Proof.
  unfold byte_fallback. destruct (rd data pos) as [c|] eqn:R; [|discriminate].
  cbn [bind ret]. pose proof (BYTE_val_range c) as Hc.
  intros [= <- <-]. split; [reflexivity|]. unfold field_shape.
  destruct ((BYTE_val c =? 0) || (BYTE_val c =? 1)) eqn:O; cbn.
  - apply orb_prop in O. splits; try lia; eauto.
  - apply orb_false_iff in O. splits; try lia; eauto.
Qed.

Lemma or_else_cases (a : Candidate) (rest : M (FieldRecord * Z)) (x : FieldRecord * Z) :
  or_else a rest = Ok x -> a = Ok (Some x) \/ (a = Ok None /\ rest = Ok x).
Proof.
  unfold or_else. destruct a as [[y|]|]; cbn; [| auto | discriminate].
  intros [= <-]. auto.
Qed.

Lemma classify_shape (data : list byte) (size pos : Z) (r : FieldRecord) (p : Z) :
  size <= Z.of_nat (List.length data) -> 0 <= pos <= size ->
  classify data size pos = Ok (r, p) ->
  f_off r = pos /\ field_shape data size r.
Proof.
  intros Hsz Hpos H. unfold classify in H.
  apply or_else_cases in H. destruct H as [H|[_ H]];
    [eapply try_string_shape; eassumption|].
  apply or_else_cases in H. destruct H as [H|[_ H]];
    [eapply try_fixed_shape; eassumption|].
  apply or_else_cases in H. destruct H as [H|[_ H]];
    [eapply try_float_shape; eassumption|].
  apply or_else_cases in H. destruct H as [H|[_ H]];
    [eapply try_int32_shape; eassumption|].
  apply or_else_cases in H. destruct H as [H|[_ H]];
    [eapply try_int16_shape; eassumption|].
  eapply byte_fallback_shape; eassumption.
Qed.

(** ** From one iteration to the whole output *)

Lemma scan_loop_Forall (data : list byte) (size : Z) (P : FieldRecord -> Prop) :
  size <= Z.of_nat (List.length data) ->
  (forall pos r p, 0 <= pos < size -> classify data size pos = Ok (r, p) -> P r) ->
  forall left pos rs stop,
    0 <= pos <= size ->
    scan_loop left data size pos = Ok (rs, stop) -> Forall P rs.
Proof.
  intros Hsz HP. induction left as [|left IH]; intros pos rs stop Hpos;
    cbn [scan_loop].
  - destruct (pos <? size); intros [= <- <-]; constructor.
  - destruct (pos <? size) eqn:E; [|intros [= <- <-]; constructor].
    destruct (classify_ok data size Hsz pos) as ([r p1] & Hc & _ & _ & B & _); [lia|].
    cbn in B. rewrite Hc. cbn [bind].
    destruct (scan_loop left data size p1) as [[rs' p2]|] eqn:F; [|discriminate].
    cbn [bind ret]. intros [= <- <-]. constructor.
    + eapply HP; [|exact Hc]. lia.
    + eapply IH; [|exact F]. lia.
Qed.

Lemma PrintContent_Forall (data : list byte) (size : Z) (P : FieldRecord -> Prop)
      (out : list Line) :
  size <= Z.of_nat (List.length data) ->
  (forall pos r p, 0 <= pos < size -> classify data size pos = Ok (r, p) -> P r) ->
  PrintContent data size = Ok out -> Forall P (fields_of out).
Proof.
  intros Hsz HP H.
  destruct (PrintContent_unfold data size Hsz)
    as (start & rs & stop & Hs & Hst & [C|[C|C]]).
  - destruct C as (_ & E & _). rewrite E in H. apply Ok_inj in H. subst out.
    constructor.
  - destruct C as (_ & E & _). rewrite E in H. apply Ok_inj in H. subst out.
    constructor.
  - destruct C as (_ & Hlt & R & _ & _ & _ & _ & E).
    rewrite E in H. apply Ok_inj in H. subst out.
    change (fields_of (LNewline :: map LField rs
                         ++ (if stop <? size then [LMore (size - stop)] else [])))
      with (fields_of (map LField rs
                         ++ (if stop <? size then [LMore (size - stop)] else []))).
    rewrite fields_of_map_LField.
    replace (fields_of (if stop <? size then [LMore (size - stop)] else []))
      with (@nil FieldRecord) by (destruct (stop <? size); reflexivity).
    rewrite app_nil_r.
    eapply scan_loop_Forall; [exact Hsz | exact HP | | exact R].
    destruct Hst as [->|(-> & _)]; lia.
Qed.

(** X8.  Every record printed is what the bytes at its offset decode to:
    a string record shows the printable run found there, of 3 to 64
    characters, and is as wide as the run plus its null, or as the run
    alone when it ends the buffer; a fixed string record has a canonical
    size whose region is printable and null padded, and shows the bytes
    before the first null; a numeric record carries the little-endian
    value of its 4 or 2 bytes, inside the range its kind accepts; a byte
    record carries the byte. *)
Theorem PrintContent_records_sound (data : list byte) (size : Z) (out : list Line) :
  size <= Z.of_nat (List.length data) ->
  PrintContent data size = Ok out ->
  Forall (field_shape data size) (fields_of out).
Proof.
  intros Hsz H. eapply PrintContent_Forall; [exact Hsz | | exact H].
  intros pos r p Hpos Hc.
  destruct (classify_shape data size pos r p Hsz ltac:(lia) Hc) as (_ & S).
  exact S.
Qed.

Lemma PrintContent_records_sound_witness :
  Forall (field_shape [x10; x41; x42; x43; x00; xff; xff; xff; xff; x07] 10)
    [mkField 1 (KString 4 "ABC") 4; mkField 5 (KLong (-1) 4294967295) 4;
     mkField 9 (KByte 7) 1].
Proof.
  apply (PrintContent_records_sound
           [x10; x41; x42; x43; x00; xff; xff; xff; xff; x07] 10
           [LNewline; LField (mkField 1 (KString 4 "ABC") 4);
            LField (mkField 5 (KLong (-1) 4294967295) 4);
            LField (mkField 9 (KByte 7) 1)]).
  - vm_compute. discriminate.
  - reflexivity.
Defined.

Lemma tiles_widths_sum (rs : list FieldRecord) : forall from to,
  tiles from rs to -> widths_sum rs = to - from.
Proof.
  induction rs as [|r rs IH]; cbn [tiles widths_sum fold_right]; intros from to H.
  - lia.
  - destruct H as (A & _ & T). apply IH in T. unfold widths_sum in T. lia.
Qed.

(** X9.  Every byte after the scan start is accounted for: for a buffer of
    at least 2 bytes, the widths of the records printed and the count of
    the "more bytes" line, when there is one, add up to [size - start]. *)
Theorem PrintContent_accounts_for_every_byte (data : list byte) (size : Z) :
  size <= Z.of_nat (List.length data) -> 2 <= size ->
  exists out start,
    PrintContent data size = Ok out
    /\ scan_start data size = Ok start
    /\ widths_sum (fields_of out) + Z_sum (more_of out) = size - start.
Proof.
  intros Hsz H2.
  destruct (PrintContent_unfold data size Hsz)
    as (start & rs & stop & Hs & Hst & [C|[C|C]]).
  - lia.
  - destruct C as (B & E & _). exists [LHeaderOnly], start.
    splits; auto. cbn. destruct Hst as [->|(-> & ? & _)]; lia.
  - destruct C as (_ & Hlt & R & T & B & _ & _ & E).
    eexists; exists start. split; [exact E|]. split; [exact Hs|].
    change (fields_of (LNewline :: ?l)) with (fields_of l).
    change (more_of (LNewline :: ?l)) with (more_of l).
    rewrite fields_of_map_LField, more_of_map_LField.
    apply tiles_widths_sum in T.
    destruct (stop <? size) eqn:L; cbn [fields_of more_of flat_map app Z_sum fold_right];
      rewrite app_nil_r, T; lia.
Qed.

Lemma PrintContent_accounts_for_every_byte_witness :
  exists out start,
    PrintContent (x10 :: repeat x00 40) 41 = Ok out
    /\ scan_start (x10 :: repeat x00 40) 41 = Ok start
    /\ widths_sum (fields_of out) + Z_sum (more_of out) = 41 - start.
Proof.
  apply (PrintContent_accounts_for_every_byte (x10 :: repeat x00 40) 41).
  - vm_compute. discriminate.
  - lia.
Defined.

(** X10.  The "more bytes" line appears only when the field cap was hit:
    an output with fewer than [PKT_DBG_MAX_FIELDS] records has no such line,
    and its records consume the buffer to its end. *)
Theorem remainder_only_at_cap (data : list byte) (size : Z) (out : list Line) :
  size <= Z.of_nat (List.length data) ->
  PrintContent data size = Ok out ->
  (List.length (fields_of out) < PKT_DBG_MAX_FIELDS)%nat ->
  more_of out = []
  /\ (2 <= size ->
      exists start, scan_start data size = Ok start
                    /\ widths_sum (fields_of out) = size - start).
Proof.
  intros Hsz H Hn.
  destruct (PrintContent_unfold data size Hsz)
    as (start & rs & stop & Hs & Hst & [C|[C|C]]).
  - destruct C as (B & E & _). rewrite E in H. apply Ok_inj in H. subst out.
    split; [reflexivity|]. intros; lia.
  - destruct C as (B & E & _). rewrite E in H. apply Ok_inj in H. subst out.
    split; [reflexivity|]. intros _. exists start. split; [exact Hs|].
    cbn. destruct Hst as [->|(-> & ? & _)]; lia.
  - destruct C as (_ & Hlt & R & T & B & _ & F & E).
    rewrite E in H. apply Ok_inj in H. subst out.
    change (fields_of (LNewline :: ?l)) with (fields_of l) in *.
    change (more_of (LNewline :: ?l)) with (more_of l).
    rewrite fields_of_map_LField in *. rewrite more_of_map_LField.
    destruct (stop <? size) eqn:L.
    + exfalso. cbn [fields_of flat_map app] in Hn. rewrite app_nil_r in Hn.
      rewrite F in Hn by lia. lia.
    + split; [reflexivity|]. intros _. exists start. split; [exact Hs|].
      cbn [fields_of flat_map]. rewrite app_nil_r.
      rewrite (tiles_widths_sum _ _ _ T). lia.
Qed.

Lemma remainder_only_at_cap_witness :
  more_of [LNewline; LField (mkField 1 (KString 4 "ABC") 4)] = []
  /\ (2 <= 5 ->
      exists start, scan_start [x10; x41; x42; x43; x00] 5 = Ok start
                    /\ widths_sum (fields_of [LNewline;
                                               LField (mkField 1 (KString 4 "ABC") 4)])
                       = 5 - start).
Proof.
  apply (remainder_only_at_cap [x10; x41; x42; x43; x00] 5).
  - vm_compute. discriminate.
  - reflexivity.
  - vm_compute. lia.
Defined.

(** ** The candidates one by one *)

(** An equivalence between an equation on results and a condition of
    arithmetic, when both sides are decided by the hypotheses. *)
Ltac decide_iff :=
  split;
  [ let H := fresh in intros H; try discriminate H; try lia
  | let H := fresh in intros H; try reflexivity; exfalso; lia ].

(** X11.  [DetectFixedString] on [maxLen] readable bytes returns the
    smallest canonical size that fits in [maxLen] and whose region is
    printable and null padded, and 0 exactly when no canonical size that
    fits has such a region. *)
Theorem DetectFixedString_smallest (data : list byte) (base maxLen : Z) :
  0 <= base -> base + maxLen <= Z.of_nat (List.length data) ->
  exists r,
    DetectFixedString data base maxLen = Ok r
    /\ ((r = 0 /\ forall sz, In sz sizes -> sz <= maxLen ->
                   padded_string (region data base (Z.to_nat sz)) = false)
        \/ (In r sizes /\ r <= maxLen
            /\ padded_string (region data base (Z.to_nat r)) = true
            /\ forall sz, In sz sizes -> sz < r ->
                 padded_string (region data base (Z.to_nat sz)) = false)).
Proof.
  intros H0 H1. unfold DetectFixedString.
  apply DetectFixedString_from_first; auto using sizes_ascending, sizes_positive.
Qed.

Lemma DetectFixedString_smallest_witness :
  exists r,
    DetectFixedString (x00 :: x41 :: x42 :: x43 :: repeat x00 13) 0 17 = Ok r
    /\ ((r = 0 /\ forall sz, In sz sizes -> sz <= 17 ->
                   padded_string
                     (region (x00 :: x41 :: x42 :: x43 :: repeat x00 13) 0 (Z.to_nat sz))
                   = false)
        \/ (In r sizes /\ r <= 17
            /\ padded_string
                 (region (x00 :: x41 :: x42 :: x43 :: repeat x00 13) 0 (Z.to_nat r))
               = true
            /\ forall sz, In sz sizes -> sz < r ->
                 padded_string
                   (region (x00 :: x41 :: x42 :: x43 :: repeat x00 13) 0 (Z.to_nat sz))
                 = false)).
Proof.
  apply (DetectFixedString_smallest (x00 :: x41 :: x42 :: x43 :: repeat x00 13) 0 17).
  - lia.
  - vm_compute. discriminate.
Defined.

(** X12.  The 32-bit candidate, with at least 4 bytes left, on the
    little-endian value [u] of the 4 bytes: [long] exactly when the signed
    value is in [(-100000000, 0)], that is [u > 2^32 - 100000000]; [DWORD]
    exactly when [1 <= u <= 0xF0000000]; rejected exactly when [u] is 0 or
    above [0xF0000000] up to [2^32 - 100000000]. *)
Theorem try_int32_ranges (data : list byte) (size pos : Z) :
  size <= Z.of_nat (List.length data) -> 0 <= pos -> pos + 4 <= size ->
  exists u,
    rd_DWORD data pos = Ok u /\ 0 <= u < 4294967296
    /\ (try_int32 data size pos
        = Ok (Some (mkField pos (KLong (u - 4294967296) u) 4, pos + 4))
        <-> 4294967296 - 100000000 < u)
    /\ (try_int32 data size pos = Ok (Some (mkField pos (KDWORD u) 4, pos + 4))
        <-> 1 <= u <= 0xF0000000)
    /\ (try_int32 data size pos = Ok None
        <-> u = 0 \/ 0xF0000000 < u <= 4294967296 - 100000000).
Proof.
  intros Hsz H0 H4.
  destruct (rd_DWORD_in data pos H0 ltac:(lia)) as (u & Ru & Hu).
  exists u. split; [assumption|]. split; [assumption|].
  unfold try_int32. destruct (pos + 4 <=? size) eqn:E; [|lia].
  rewrite Ru. cbn [bind]. unfold as_long, IsReasonableDWORD, commit, reject, ret.
  replace (pos + 4 - pos) with 4 by lia.
  destruct (u <? 2147483648) eqn:Eu.
  - replace ((u <? 0) && (-100000000 <? u)) with false
      by (symmetry; apply andb_false_iff; left; lia).
    destruct ((u =? 0) || (u =? 0xFFFFFFFF)) eqn:O.
    + apply orb_prop in O. splits; decide_iff.
    + apply orb_false_iff in O.
      replace (0xF0000000 <? u) with false by (symmetry; apply Z.ltb_ge; lia).
      splits; decide_iff.
  - destruct ((u - 4294967296 <? 0) && (-100000000 <? u - 4294967296)) eqn:A.
    + apply andb_prop in A. splits; decide_iff.
    + apply andb_false_iff in A.
      destruct ((u =? 0) || (u =? 0xFFFFFFFF)) eqn:O.
      * apply orb_prop in O. splits; decide_iff.
      * apply orb_false_iff in O.
        destruct (0xF0000000 <? u) eqn:F; splits; decide_iff.
Qed.

Lemma try_int32_ranges_witness :
  exists u,
    rd_DWORD [x10; xff; xff; xff; xff] 1 = Ok u /\ 0 <= u < 4294967296
    /\ (try_int32 [x10; xff; xff; xff; xff] 5 1
        = Ok (Some (mkField 1 (KLong (u - 4294967296) u) 4, 1 + 4))
        <-> 4294967296 - 100000000 < u)
    /\ (try_int32 [x10; xff; xff; xff; xff] 5 1
        = Ok (Some (mkField 1 (KDWORD u) 4, 1 + 4))
        <-> 1 <= u <= 0xF0000000)
    /\ (try_int32 [x10; xff; xff; xff; xff] 5 1 = Ok None
        <-> u = 0 \/ 0xF0000000 < u <= 4294967296 - 100000000).
Proof.
  apply (try_int32_ranges [x10; xff; xff; xff; xff] 5 1).
  - vm_compute. discriminate.
  - lia.
  - lia.
Defined.

(** Step through a candidate: case on every read and every test. *)
Ltac walk_candidate :=
  repeat (cbn [bind ret];
          match goal with
          | |- context [match ?x with (_, _) => _ end] => destruct x
          | |- context [bind ?m _] => destruct m as [?|]
          | |- context [if ?b then _ else _] => destruct b
          end).

Lemma candidates_not_byte (data : list byte) (size pos : Z) (r : FieldRecord) (p : Z) :
  try_string data size pos = Ok (Some (r, p))
  \/ try_fixed data size pos = Ok (Some (r, p))
  \/ try_float data size pos = Ok (Some (r, p))
  \/ try_int32 data size pos = Ok (Some (r, p))
  \/ try_int16 data size pos = Ok (Some (r, p)) ->
  forall v, f_kind r <> KByte v /\ f_kind r <> KBool v.
Proof.
  intros [H|[H|[H|[H|H]]]]; revert H;
    [unfold try_string, at_end_or_null, at_null | unfold try_fixed
     | unfold try_float | unfold try_int32 | unfold try_int16];
    unfold commit, reject; walk_candidate; cbn [bind ret];
    intros H v; try discriminate H; apply Ok_inj in H;
    injection H as <- _; split; discriminate.
Qed.

Lemma rd_WORD_bytes (data : list byte) (i u : Z) :
  rd_WORD data i = Ok u ->
  exists b0 b1, rd data i = Ok b0 /\ rd data (i + 1) = Ok b1
                /\ u = BYTE_val b0 + 256 * BYTE_val b1.
Proof.
  unfold rd_WORD. destruct (rd data i) as [b0|]; [|discriminate].
  destruct (rd data (i + 1)) as [b1|]; [|discriminate]. cbn [bind ret].
  intros H. apply Ok_inj in H. eauto.
Qed.

(** The 16-bit candidate rejects only the value 0. *)
Lemma try_int16_rejects_zero (data : list byte) (size pos : Z) :
  pos + 2 <= size -> try_int16 data size pos = Ok None ->
  rd_WORD data pos = Ok 0.
Proof.
  intros H2. unfold try_int16. destruct (pos + 2 <=? size) eqn:E; [|lia].
  destruct (rd_WORD data pos) as [u|] eqn:R; [|discriminate]. cbn [bind].
  pose proof (rd_WORD_range _ _ _ R) as Hu.
  unfold as_short, commit, reject, ret.
  destruct (u <? 32768) eqn:Eu.
  - destruct ((u <? 0) && (-32000 <? u)); [discriminate|].
    destruct ((0 <? u) && (u <? 0xFFF0)) eqn:W; [discriminate|].
    apply andb_false_iff in W. intros _. f_equal. lia.
  - destruct ((u - 65536 <? 0) && (-32000 <? u - 65536)) eqn:S; [discriminate|].
    destruct ((0 <? u) && (u <? 0xFFF0)) eqn:W; [discriminate|].
    apply andb_false_iff in S. apply andb_false_iff in W. intros _. exfalso. lia.
Qed.

Lemma classify_byte_value (data : list byte) (size pos : Z) (r : FieldRecord) (p : Z) :
  pos + 2 <= size -> classify data size pos = Ok (r, p) ->
  forall v, f_kind r = KByte v \/ f_kind r = KBool v -> v = 0.
Proof.
  intros H2 H v Hk.
  assert (forall a, a = Ok (Some (r, p)) ->
            a = try_string data size pos \/ a = try_fixed data size pos
            \/ a = try_float data size pos \/ a = try_int32 data size pos
            \/ a = try_int16 data size pos -> False) as Hno.
  { intros a Ha Hwhich.
    destruct (candidates_not_byte data size pos r p) with (v := v) as (N1 & N2).
    - destruct Hwhich as [-> | [-> | [-> | [-> | ->]]]]; auto 6.
    - destruct Hk; contradiction. }
  unfold classify in H.
  apply or_else_cases in H. destruct H as [H|[_ H]]; [exfalso; eapply Hno; eauto|].
  apply or_else_cases in H. destruct H as [H|[_ H]]; [exfalso; eapply Hno; eauto|].
  apply or_else_cases in H. destruct H as [H|[_ H]]; [exfalso; eapply Hno; eauto|].
  apply or_else_cases in H. destruct H as [H|[_ H]]; [exfalso; eapply Hno; eauto 6|].
  apply or_else_cases in H. destruct H as [H|[N H]]; [exfalso; eapply Hno; eauto 6|].
  apply try_int16_rejects_zero in N; [|exact H2].
  destruct (rd_WORD_bytes _ _ _ N) as (b0 & b1 & R0 & _ & E).
  pose proof (BYTE_val_range b0). pose proof (BYTE_val_range b1).
  unfold byte_fallback in H. rewrite R0 in H. cbn [bind ret] in H.
  apply Ok_inj in H. injection H as <- _. cbn [f_kind] in Hk.
  replace (BYTE_val b0) with 0 in Hk by lia. cbn in Hk.
  destruct Hk as [Hk|Hk]; [discriminate Hk | injection Hk as <-; reflexivity].
Qed.

(** X13.  A byte record with a value other than 0, that is "BYTE: n" or
    "BYTE/bool: 1", is printed only for the last byte of the buffer:
    wherever 2 bytes are left, the 16-bit candidate takes every pair that
    is not zero. *)
Theorem nonzero_byte_only_at_end (data : list byte) (size : Z) (out : list Line) :
  size <= Z.of_nat (List.length data) ->
  PrintContent data size = Ok out ->
  Forall (fun r => forall v, f_kind r = KByte v \/ f_kind r = KBool v ->
                             v <> 0 -> f_off r = size - 1)
         (fields_of out).
Proof.
  intros Hsz H. eapply PrintContent_Forall; [exact Hsz | | exact H].
  intros pos r p Hpos Hc v Hk Hv.
  destruct (classify_shape data size pos r p Hsz ltac:(lia) Hc) as (Hoff & _).
  rewrite Hoff.
  destruct (Z_lt_le_dec (pos + 1) size) as [Hl|Hl]; [|lia].
  exfalso. apply Hv. eapply classify_byte_value; [|exact Hc|exact Hk]. lia.
Qed.

Lemma nonzero_byte_only_at_end_witness :
  Forall (fun r => forall v, f_kind r = KByte v \/ f_kind r = KBool v ->
                             v <> 0 -> f_off r = 4 - 1)
         [mkField 1 (KWORD 1287) 2; mkField 3 (KByte 9) 1].
Proof.
  apply (nonzero_byte_only_at_end [x10; x07; x05; x09] 4
           [LNewline; LField (mkField 1 (KWORD 1287) 2);
            LField (mkField 3 (KByte 9) 1)]).
  - vm_compute. discriminate.
  - reflexivity.
Defined.

Lemma leading_printable_all (l : list byte) :
  forallb IsPrintable l = true -> leading_printable l = List.length l.
Proof.
  induction l as [|c l IH]; cbn; [reflexivity|].
  destruct (IsPrintable c); [|discriminate]. cbn. intros H. f_equal. auto.
Qed.

(** X14.  A printable run that goes on past 64 bytes is not a string
    field: when the 65 bytes at the offset are all printable, the
    null-terminated candidate stops after 64 of them, finds neither a null
    nor the end of the buffer, and rejects. *)
Theorem try_string_run_over_64 (data : list byte) (size pos : Z) :
  size <= Z.of_nat (List.length data) -> 0 <= pos -> pos + 65 <= size ->
  forallb IsPrintable (region data pos 65) = true ->
  try_string data size pos = Ok None.
Proof.
  intros Hsz H0 H65 Hall.
  assert (List.length (region data pos 65) = 65%nat) as Hlen
    by (apply region_length; lia).
  set (rest := region data pos (Z.to_nat (size - pos))).
  assert (firstn 65 rest = region data pos 65) as Hf
    by (unfold rest; apply region_firstn; lia).
  assert (65 <= leading_printable rest)%nat as Hlead.
  { pose proof (leading_printable_firstn rest 65) as E.
    rewrite Hf, (leading_printable_all _ Hall), Hlen in E. lia. }
  assert (List.length rest = Z.to_nat (size - pos)) as Hlr
    by (unfold rest; apply region_length; lia).
  destruct (nth_error (region data pos 65) 0) as [c|] eqn:N0;
    [|apply nth_error_None in N0; lia].
  destruct (nth_error (region data pos 65) 64) as [c64|] eqn:N64;
    [|apply nth_error_None in N64; lia].
  pose proof (forallb_nth_error _ _ _ _ Hall N0) as P0.
  pose proof (forallb_nth_error _ _ _ _ Hall N64) as P64.
  apply rd_region in N0; [|lia]. apply rd_region in N64; [|lia].
  rewrite Z.add_0_r in N0. change (Z.of_nat 64) with 64 in N64.
  unfold try_string. rewrite N0. cbn [bind]. rewrite P0.
  rewrite str_run_list by lia. fold rest. cbn [bind app].
  replace (Nat.min 64 (leading_printable rest)) with 64%nat by lia.
  rewrite length_firstn, Hlr. replace (Nat.min 64 (Z.to_nat (size - pos))) with 64%nat by lia.
  change (PKT_DBG_MIN_STR_LEN <=? Z.of_nat 64) with true. cbv iota.
  change (Z.of_nat 64) with 64.
  unfold at_end_or_null.
  replace (size <=? pos + 64) with false by (symmetry; apply Z.leb_gt; lia).
  rewrite N64. cbn [bind ret]. rewrite (printable_not_null _ P64). reflexivity.
Qed.

Lemma try_string_run_over_64_witness :
  try_string (x10 :: repeat x41 70) 71 1 = Ok None.
Proof.
  apply (try_string_run_over_64 (x10 :: repeat x41 70) 71 1).
  - vm_compute. discriminate.
  - lia.
  - lia.
  - reflexivity.
Defined.

Lemma Shutdown_twice_witness :
  log (Shutdown (Shutdown
         (Initialize (mkEnv true 5 (mkTime 2024 1 1 0 0 0 0)) process_start)))
  = log (Initialize (mkEnv true 5 (mkTime 2024 1 1 0 0 0 0)) process_start)
    ++ [LRule; LSessionEnd 0 0; LRuleEnd].
Proof.
  apply (Shutdown_twice
           (Initialize (mkEnv true 5 (mkTime 2024 1 1 0 0 0 0)) process_start)).
  reflexivity.
Defined.

(** ** The float band on bit patterns *)

(** The order of two normal binary32 magnitudes is the order of their
    biased exponent and significand read as one integer. *)
Lemma magnitude_order (m1 m2 e1 e2 : Z) :
  8388608 <= m1 < 16777216 -> 8388608 <= m2 < 16777216 ->
  1 <= e1 -> 1 <= e2 ->
  (m1 * 2 ^ (e1 - 1) <=? m2 * 2 ^ (e2 - 1))
  = (e1 * 8388608 + m1 <=? e2 * 8388608 + m2).
Proof.
  intros H1 H2 E1 E2.
  destruct (Z.leb_spec (e1 * 8388608 + m1) (e2 * 8388608 + m2)) as [L|L].
  - apply Z.leb_le.
    destruct (Z.lt_trichotomy e1 e2) as [Hlt|[->|Hgt]].
    + destruct (pow2_gap (e1 - 1) (e2 - 1)) as (P & Q); [lia|]. nia.
    + assert (0 < 2 ^ (e2 - 1)) by (apply Z.pow_pos_nonneg; lia). nia.
    + lia.
  - apply Z.leb_gt.
    destruct (Z.lt_trichotomy e1 e2) as [Hlt|[->|Hgt]].
    + lia.
    + assert (0 < 2 ^ (e2 - 1)) by (apply Z.pow_pos_nonneg; lia). nia.
    + destruct (pow2_gap (e2 - 1) (e1 - 1)) as (P & Q); [lia|]. nia.
Qed.

Lemma low31_fields (u : Z) :
  u mod 2147483648 = (u / 8388608) mod 256 * 8388608 + u mod 8388608.
Proof.
  pose proof (Z.div_mod u 8388608 ltac:(lia)) as A.
  pose proof (Z.div_mod (u / 8388608) 256 ltac:(lia)) as B.
  pose proof (Z.mod_pos_bound u 8388608 ltac:(lia)) as C.
  pose proof (Z.mod_pos_bound (u / 8388608) 256 ltac:(lia)) as D.
  symmetry. apply (Z.mod_unique_pos _ _ (u / 8388608 / 256)); lia.
Qed.

Lemma IsReasonableFloat_bits (u : Z) :
  IsReasonableFloat (IEEE32.of_bits u)
  = (0x38D1B717 <=? u mod 2147483648) && (u mod 2147483648 <=? 0x47C35000).
Proof.
  rewrite low31_fields. unfold IEEE32.of_bits.
  pose proof (Z.mod_pos_bound (u / 8388608) 256 ltac:(lia)) as He.
  pose proof (Z.mod_pos_bound u 8388608 ltac:(lia)) as Hm.
  set (e := (u / 8388608) mod 256) in *. set (m := u mod 8388608) in *.
  set (s := 2147483648 <=? u). clearbody e m s.
  destruct (e =? 0) eqn:E0.
  - assert (e = 0) as -> by lia.
    replace (0x38D1B717 <=? 0 * 8388608 + m) with false
      by (symmetry; apply Z.leb_gt; lia).
    cbn [andb]. destruct m as [|p|p]; [destruct s; reflexivity | | lia].
    rewrite IsReasonableFloat_finite by (unfold canonical32; lia).
    apply andb_false_iff. left. apply Z.leb_gt.
    change (2 ^ (-149 + 149)) with 1. lia.
  - destruct (e =? 255) eqn:E1.
    + assert (e = 255) as -> by lia.
      replace (255 * 8388608 + m <=? 0x47C35000) with false
        by (symmetry; apply Z.leb_gt; lia).
      rewrite andb_false_r. destruct (m =? 0); destruct s; reflexivity.
    + destruct (m + 8388608) as [|p|p] eqn:M; [lia | | lia].
      rewrite IsReasonableFloat_finite by (unfold canonical32; lia).
      replace (e - 150 + 149) with (e - 1) by lia.
      change (13743895 * 2 ^ 112) with (13743895 * 2 ^ (113 - 1)).
      change (100000 * 2 ^ 149) with (12800000 * 2 ^ (143 - 1)).
      rewrite !magnitude_order by lia. f_equal.
      * destruct (Z.leb_spec (113 * 8388608 + 13743895) (e * 8388608 + Z.pos p));
          destruct (Z.leb_spec 0x38D1B717 (e * 8388608 + m)); try reflexivity; lia.
      * destruct (Z.leb_spec (e * 8388608 + Z.pos p) (143 * 8388608 + 12800000));
          destruct (Z.leb_spec (e * 8388608 + m) 0x47C35000); try reflexivity; lia.
Qed.

(** X15.  The float candidate on bit patterns, with at least 4 bytes left:
    the little-endian pattern [u] of the 4 bytes is committed as a float
    exactly when its low 31 bits are between 0x38D1B717 (0.0001f) and
    0x47C35000 (100000.0f); the sign bit plays no part. *)
Theorem try_float_bit_band (data : list byte) (size pos : Z) :
  size <= Z.of_nat (List.length data) -> 0 <= pos -> pos + 4 <= size ->
  exists u,
    rd_DWORD data pos = Ok u /\ 0 <= u < 4294967296
    /\ (try_float data size pos
        = Ok (Some (mkField pos (KFloat (IEEE32.of_bits u)) 4, pos + 4))
        <-> 0x38D1B717 <= u mod 2147483648 <= 0x47C35000)
    /\ (try_float data size pos = Ok None
        <-> ~ (0x38D1B717 <= u mod 2147483648 <= 0x47C35000)).
Proof.
  intros Hsz H0 H4.
  destruct (rd_DWORD_in data pos H0 ltac:(lia)) as (u & Ru & Hu).
  exists u. split; [assumption|]. split; [assumption|].
  unfold try_float. destruct (pos + 4 <=? size) eqn:E; [|lia].
  rewrite Ru. cbn [bind]. rewrite IsReasonableFloat_bits.
  unfold commit, reject, ret. replace (pos + 4 - pos) with 4 by lia.
  set (low := u mod 2147483648). clearbody low.
  destruct (Z.leb_spec 0x38D1B717 low); destruct (Z.leb_spec low 0x47C35000);
    cbn [andb]; split; decide_iff.
Qed.

Lemma try_float_bit_band_witness :
  exists u,
    rd_DWORD [x10; x00; x00; x80; xbf] 1 = Ok u /\ 0 <= u < 4294967296
    /\ (try_float [x10; x00; x00; x80; xbf] 5 1
        = Ok (Some (mkField 1 (KFloat (IEEE32.of_bits u)) 4, 1 + 4))
        <-> 0x38D1B717 <= u mod 2147483648 <= 0x47C35000)
    /\ (try_float [x10; x00; x00; x80; xbf] 5 1 = Ok None
        <-> ~ (0x38D1B717 <= u mod 2147483648 <= 0x47C35000)).
Proof.
  apply (try_float_bit_band [x10; x00; x00; x80; xbf] 5 1).
  - vm_compute. discriminate.
  - lia.
  - lia.
Defined.
